(** * ESP32 environment monitor: the scheduling core of [sketch.ino]

    A shallow embedding of the firmware's logic: the threshold evaluation
    ([updateAlarm]), the two display layouts ([showSummary], [showDetail]),
    the button debouncer ([handleButton]) and the cooperative scheduler
    ([setup], [loop]).

    Conventions.
    - [float] is IEEE-754 binary32, taken from the standard library's
      [spec_float] (24 bits of precision, exponent bound 128); the
      sensor's "no reading" value is [NAN].
    - [unsigned long] is 32 bits wide on the ESP32; it is a [Z] in
      [0, 2^32) and subtraction wraps ([usub]).
    - [int] values that the sketch only stores and compares are [Z].
    - Hardware calls are recorded, in program order, as a list of
      [Output]s; what the hardware answers ([millis], [digitalRead], the
      sensor) is given to every pass as a [PassInput]. *)

From Stdlib Require Import ZArith List String Bool Lia.
From Stdlib Require Import Floats.SpecFloat.
Import ListNotations.

Local Open Scope string_scope.
Local Open Scope list_scope.
Local Open Scope Z_scope.

(* ------------------------------------------------------------------ *)
(** ** Machine data *)

Module Float32.

Definition prec : Z := 24.
Definition emax : Z := 128.

Definition float : Type := spec_float.

Definition NAN : float := S754_nan.

(** [isnan(x)] *)
Definition isnan (x : float) : bool :=
  match x with
  | S754_nan => true
  | _ => false
  end.

(** [x >= y] on floats; false whenever an operand is NaN. *)
Definition ge (x y : float) : bool := SFleb y x.

(** The float nearest to [m * 2^e] (round to nearest even): how a
    decimal literal becomes a constant. *)
Definition of_scaled (m e : Z) : float := binary_normalize prec emax m e false.

Definition of_Z (z : Z) : float := of_scaled z 0.

(** A float is well formed when its mantissa and exponent are the
    canonical ones of binary32. *)
Definition valid (x : float) : bool := valid_binary prec emax x.

(** Zero or a finite non-zero number: neither NaN nor an infinity. *)
Definition is_finite (x : float) : bool :=
  match x with
  | S754_zero _ | S754_finite _ _ _ => true
  | _ => false
  end.

(** The smallest exponent of the format: every finite binary32 is an
    integer multiple of [2^emin32] (that is, of 2^-149). *)
Definition emin32 : Z := Eval cbv in emin prec emax.

(** The value of a finite float counted in units of 2^-149. *)
Definition units (x : float) : Z :=
  match x with
  | S754_finite s m e => cond_Zopp s (Zpos m * 2 ^ (e - emin32))
  | _ => 0
  end.

(** [z] counted in the same units. *)
Definition units_of_Z (z : Z) : Z := z * 2 ^ (- emin32).

(** "The value of [x] is at least the integer [z]", with +infinity
    above every integer, and NaN and -infinity above none. *)
Definition at_least (x : float) (z : Z) : Prop :=
  match x with
  | S754_nan => False
  | S754_infinity s => s = false
  | _ => units_of_Z z <= units x
  end.

End Float32.

Import Float32.

Module ULong.

(** [unsigned long] on the ESP32: 32 bits. *)
Definition width : Z := 32.
Definition modulus : Z := 2 ^ width.

Definition wrap (z : Z) : Z := z mod modulus.

Definition in_range (z : Z) : Prop := 0 <= z < modulus.

(** [a - b] on [unsigned long]. *)
Definition usub (a b : Z) : Z := wrap (a - b).

End ULong.

Import ULong.

(* ------------------------------------------------------------------ *)
(** ** Configuration constants *)

Definition LOW : Z := 0.
Definition HIGH : Z := 1.
Definition INPUT : Z := 1.
Definition OUTPUT : Z := 3.

Definition DHT_PIN : Z := 15.
Definition LDR_PIN : Z := 34.
Definition BUTTON_PIN : Z := 19.
Definition BUZZER_PIN : Z := 18.
Definition OLED_ADDR : Z := 60.
Definition SSD1306_SWITCHCAPVCC : Z := 2.
Definition I2C_SDA_PIN : Z := 21.
Definition I2C_SCL_PIN : Z := 22.

Definition TEMP_HIGH_THRESHOLD : float := Eval cbv in of_Z 30.
Definition HUMID_HIGH_THRESHOLD : float := Eval cbv in of_Z 70.
Definition LIGHT_LOW_THRESHOLD : Z := 1000.

Definition READ_INTERVAL_MS : Z := 2000.
Definition DISPLAY_INTERVAL_MS : Z := 500.
Definition BUTTON_DEBOUNCE_MS : Z := 200.

(* ------------------------------------------------------------------ *)
(** ** Data model *)

Record EnvData := mkEnvData {
  temperature : float;
  humidity : float;
  lightRaw : Z
}.

Inductive DisplayMode := SUMMARY | DETAIL.

Definition DisplayMode_eqb (a b : DisplayMode) : bool :=
  match a, b with
  | SUMMARY, SUMMARY | DETAIL, DETAIL => true
  | _, _ => false
  end.

(** Calls on the SSD1306 display object. *)
Inductive DrawCmd :=
| begin (vcc addr : Z)
| clearDisplay
| setTextSize (n : Z)
| setTextColorWhite
| setCursor (x y : Z)
| print (s : string)
| println (s : string)
| println_empty
| print_float (x : float) (digits : Z)
| println_float (x : float) (digits : Z)
| print_int (n : Z)
| println_int (n : Z)
| display.

(** Every call that reaches the hardware. *)
Inductive Output :=
| Serial_begin (baud : Z)
| pinMode (pin mode : Z)
| digitalWrite (pin level : Z)
| dht_begin
| I2C_begin (sda scl : Z)
| Serial_print (s : string)
| Serial_println (s : string)
| Serial_print_float (x : float) (digits : Z)
| Serial_println_int (n : Z)
| oled (c : DrawCmd).

(** The globals of the sketch. *)
Record Globals := mkGlobals {
  currentMode : DisplayMode;
  alarmOn : bool;
  lastReadMillis : Z;
  lastDisplayMillis : Z;
  latestData : EnvData;
  lastButtonChange : Z;
  lastButtonState : Z
}.

Definition set_currentMode (m : DisplayMode) (g : Globals) : Globals :=
  mkGlobals m (alarmOn g) (lastReadMillis g) (lastDisplayMillis g)
            (latestData g) (lastButtonChange g) (lastButtonState g).

Definition set_alarmOn (b : bool) (g : Globals) : Globals :=
  mkGlobals (currentMode g) b (lastReadMillis g) (lastDisplayMillis g)
            (latestData g) (lastButtonChange g) (lastButtonState g).

Definition set_lastReadMillis (t : Z) (g : Globals) : Globals :=
  mkGlobals (currentMode g) (alarmOn g) t (lastDisplayMillis g)
            (latestData g) (lastButtonChange g) (lastButtonState g).

Definition set_lastDisplayMillis (t : Z) (g : Globals) : Globals :=
  mkGlobals (currentMode g) (alarmOn g) (lastReadMillis g) t
            (latestData g) (lastButtonChange g) (lastButtonState g).

Definition set_latestData (d : EnvData) (g : Globals) : Globals :=
  mkGlobals (currentMode g) (alarmOn g) (lastReadMillis g) (lastDisplayMillis g)
            d (lastButtonChange g) (lastButtonState g).

Definition set_lastButtonChange (t : Z) (g : Globals) : Globals :=
  mkGlobals (currentMode g) (alarmOn g) (lastReadMillis g) (lastDisplayMillis g)
            (latestData g) t (lastButtonState g).

Definition set_lastButtonState (l : Z) (g : Globals) : Globals :=
  mkGlobals (currentMode g) (alarmOn g) (lastReadMillis g) (lastDisplayMillis g)
            (latestData g) (lastButtonChange g) l.

(** The values the globals have when [setup] starts: the initialisers of
    their declarations, and all-zero storage for [latestData], which has
    none. *)
Definition zero_data : EnvData :=
  mkEnvData (S754_zero false) (S754_zero false) 0.

Definition initial_globals : Globals :=
  mkGlobals SUMMARY false 0 0 zero_data 0 LOW.

(* ------------------------------------------------------------------ *)
(** ** A small monad for code that updates the globals and calls the
       hardware *)

Definition Firmware (A : Type) : Type := Globals -> A * Globals * list Output.

Definition ret {A} (a : A) : Firmware A := fun g => (a, g, []).

Definition bind {A B} (c : Firmware A) (k : A -> Firmware B) : Firmware B :=
  fun g =>
    let '(a, g1, o1) := c g in
    let '(b, g2, o2) := k a g1 in
    (b, g2, o1 ++ o2).

Definition gets {A} (f : Globals -> A) : Firmware A := fun g => (f g, g, []).

Definition modify (f : Globals -> Globals) : Firmware unit :=
  fun g => (tt, f g, []).

Definition emit (o : Output) : Firmware unit := fun g => (tt, g, [o]).

Definition emit_all (os : list Output) : Firmware unit := fun g => (tt, g, os).

Definition when (b : bool) (c : Firmware unit) : Firmware unit :=
  if b then c else ret tt.

Declare Scope firmware_scope.
Delimit Scope firmware_scope with fw.
Notation "x <- c ;; k" := (bind c (fun x => k))
  (at level 61, c at next level, right associativity) : firmware_scope.
Notation "c ;; k" := (bind c (fun _ => k))
  (at level 61, right associativity) : firmware_scope.

(** The globals and the hardware calls a piece of firmware leaves. *)
Definition exec {A} (c : Firmware A) (g : Globals) : Globals := snd (fst (c g)).
Definition calls {A} (c : Firmware A) (g : Globals) : list Output := snd (c g).

(* ------------------------------------------------------------------ *)
(** ** What the hardware answers during one pass of [loop] *)

Record PassInput := mkPassInput {
  millis_loop : Z;        (* [millis()] at the top of [loop] *)
  dht_temperature : float; (* [dhtSensor.readTemperature()] *)
  dht_humidity : float;    (* [dhtSensor.readHumidity()] *)
  adc_light : Z;           (* [analogRead(ldrPin)] *)
  button_level : Z;        (* [digitalRead(BUTTON_PIN)] *)
  millis_button : Z        (* [millis()] inside [handleButton] *)
}.

(** [EnvSensor::read] *)
Definition EnvSensor_read (env : PassInput) : EnvData :=
  mkEnvData (dht_temperature env) (dht_humidity env) (adc_light env).

(* ------------------------------------------------------------------ *)
(** ** [DisplayManager] *)

(** [DisplayManager::begin], given whether the driver's own [begin]
    succeeded. *)
Definition DisplayManager_begin (driver_ok : bool) : bool * list DrawCmd :=
  if negb driver_ok then (false, [begin SSD1306_SWITCHCAPVCC OLED_ADDR])
  else (true, [begin SSD1306_SWITCHCAPVCC OLED_ADDR;
               clearDisplay; setTextSize 1; setTextColorWhite; display]).

(** [DisplayManager::showSummary] *)
Definition showSummary (data : EnvData) (alarm : bool) : list DrawCmd :=
  [clearDisplay; setCursor 0 0; println "ENV MONITOR - SUMMARY"; println_empty]
  ++ [print "Temp: "]
  ++ (if isnan (temperature data) then [println "ERR"]
      else [print_float (temperature data) 1; println " C"])
  ++ [print "Hum : "]
  ++ (if isnan (humidity data) then [println "ERR"]
      else [print_float (humidity data) 1; println " %"])
  ++ [print "Light: "; print_int (lightRaw data); println " /4095"]
  ++ [println_empty; print "Alarm: "; println (if alarm then "ON" else "OFF")]
  ++ [display].

(** [DisplayManager::showDetail] *)
Definition showDetail (data : EnvData) : list DrawCmd :=
  [clearDisplay; setCursor 0 0; println "ENV MONITOR - DETAIL"; println_empty]
  ++ [println "Raw readings:"]
  ++ [print "T: ";
      println_float
        (if isnan (temperature data) then NAN else temperature data) 2]
  ++ [print "H: ";
      println_float
        (if isnan (humidity data) then NAN else humidity data) 2]
  ++ [print "L: "; println_int (lightRaw data)]
  ++ [println_empty; println "Press button"; println "to switch mode."]
  ++ [display].

(* ------------------------------------------------------------------ *)
(** ** Helper functions of the sketch *)

Local Open Scope firmware_scope.

(** [updateAlarm] *)
Definition updateAlarm (data : EnvData) : Firmware unit :=
  let tempHigh := negb (isnan (temperature data))
                  && ge (temperature data) TEMP_HIGH_THRESHOLD in
  let humHigh := negb (isnan (humidity data))
                 && ge (humidity data) HUMID_HIGH_THRESHOLD in
  let lightLow := lightRaw data <=? LIGHT_LOW_THRESHOLD in
  modify (set_alarmOn (tempHigh || humHigh || lightLow)) ;;
  on <- gets alarmOn ;;
  emit (digitalWrite BUZZER_PIN (if on then HIGH else LOW)).

(** [handleButton] *)
Definition handleButton (env : PassInput) : Firmware unit :=
  let state := button_level env in
  let now := millis_button env in
  lastState <- gets lastButtonState ;;
  lastChange <- gets lastButtonChange ;;
  when (negb (state =? lastState)
        && (usub now lastChange >? BUTTON_DEBOUNCE_MS))
    (modify (set_lastButtonChange now) ;;
     modify (set_lastButtonState state) ;;
     when (state =? HIGH)
       (mode <- gets currentMode ;;
        match mode with
        | SUMMARY => modify (set_currentMode DETAIL)
        | DETAIL => modify (set_currentMode SUMMARY)
        end)).

(* ------------------------------------------------------------------ *)
(** ** [setup] and [loop] *)

(** [setup], given whether the display driver's [begin] succeeds. *)
Definition setup (driver_ok : bool) : Firmware unit :=
  emit (Serial_begin 115200) ;;
  emit (pinMode BUTTON_PIN INPUT) ;;
  emit (pinMode BUZZER_PIN OUTPUT) ;;
  emit (digitalWrite BUZZER_PIN LOW) ;;
  emit dht_begin ;;
  emit (I2C_begin I2C_SDA_PIN I2C_SCL_PIN) ;;
  let '(ok, cmds) := DisplayManager_begin driver_ok in
  emit_all (map oled cmds) ;;
  if negb ok then emit (Serial_println "OLED init failed!")
  else emit (Serial_println "System init OK.").

(** One pass of [loop]. *)
Definition loop (env : PassInput) : Firmware unit :=
  let now := millis_loop env in
  lastRead <- gets lastReadMillis ;;
  when (usub now lastRead >=? READ_INTERVAL_MS)
    (modify (set_lastReadMillis now) ;;
     modify (set_latestData (EnvSensor_read env)) ;;
     data <- gets latestData ;;
     updateAlarm data ;;
     logged <- gets latestData ;;
     emit (Serial_print "T=") ;;
     emit (Serial_print_float (temperature logged) 2) ;;
     emit (Serial_print "C, H=") ;;
     emit (Serial_print_float (humidity logged) 2) ;;
     emit (Serial_print "%, L=") ;;
     emit (Serial_println_int (lightRaw logged))) ;;
  lastDisplay <- gets lastDisplayMillis ;;
  when (usub now lastDisplay >=? DISPLAY_INTERVAL_MS)
    (modify (set_lastDisplayMillis now) ;;
     mode <- gets currentMode ;;
     data <- gets latestData ;;
     on <- gets alarmOn ;;
     match mode with
     | SUMMARY => emit_all (map oled (showSummary data on))
     | DETAIL => emit_all (map oled (showDetail data))
     end) ;;
  handleButton env.

(** The firmware run over a sequence of passes. *)
Fixpoint run (envs : list PassInput) : Firmware unit :=
  match envs with
  | [] => ret tt
  | env :: rest => loop env ;; run rest
  end.

Local Close Scope firmware_scope.

(* ------------------------------------------------------------------ *)
(** ** Vocabulary of the statements *)

(** The three time gates, read off the conditions of [loop] and
    [handleButton]. *)
Definition sample_due (env : PassInput) (g : Globals) : bool :=
  usub (millis_loop env) (lastReadMillis g) >=? READ_INTERVAL_MS.

Definition render_due (env : PassInput) (g : Globals) : bool :=
  usub (millis_loop env) (lastDisplayMillis g) >=? DISPLAY_INTERVAL_MS.

Definition accepted (env : PassInput) (g : Globals) : bool :=
  negb (button_level env =? lastButtonState g)
  && (usub (millis_button env) (lastButtonChange g) >? BUTTON_DEBOUNCE_MS).

(** A pin level as [digitalRead] reports it. *)
Definition is_level (l : Z) : Prop := l = LOW \/ l = HIGH.

(** The layout [loop] draws for a mode. *)
Definition render (mode : DisplayMode) (data : EnvData) (alarm : bool)
  : list DrawCmd :=
  match mode with
  | SUMMARY => showSummary data alarm
  | DETAIL => showDetail data
  end.

(** What one sampling cycle sends to the buzzer pin and the serial log. *)
Definition sample_calls (data : EnvData) (alarm : bool) : list Output :=
  [digitalWrite BUZZER_PIN (if alarm then HIGH else LOW);
   Serial_print "T="; Serial_print_float (temperature data) 2;
   Serial_print "C, H="; Serial_print_float (humidity data) 2;
   Serial_print "%, L="; Serial_println_int (lightRaw data)].

(** The alarm decision of [updateAlarm], as a value. *)
Definition alarm_of (data : EnvData) : bool :=
  alarmOn (exec (updateAlarm data) initial_globals).

(** The globals after the sampling step of a pass, and after its
    rendering step. *)
Definition after_sample (env : PassInput) (g : Globals) : Globals :=
  if sample_due env g then
    set_alarmOn (alarm_of (EnvSensor_read env))
      (set_latestData (EnvSensor_read env)
         (set_lastReadMillis (millis_loop env) g))
  else g.

Definition after_render (env : PassInput) (g : Globals) : Globals :=
  if render_due env g then set_lastDisplayMillis (millis_loop env) g else g.

(** A toggle event: the mode after differs from the mode before. *)
Definition toggled (g g' : Globals) : bool :=
  negb (DisplayMode_eqb (currentMode g) (currentMode g')).

(** The debouncer polled over a sequence of readings: the globals it
    leaves and the number of toggle events. *)
Fixpoint polls (envs : list PassInput) (g : Globals) : Globals * nat :=
  match envs with
  | [] => (g, 0%nat)
  | env :: rest =>
      let g1 := exec (handleButton env) g in
      let '(g2, n) := polls rest g1 in
      (g2, ((if toggled g g1 then 1 else 0) + n)%nat)
  end.

(** The reading of the rendering examples: no temperature, humidity
    22.5 (that is 45/2), light 1500. *)
Definition float_22_5 : float := Eval cbv in of_scaled 45 (-1).

Definition example_reading : EnvData := mkEnvData NAN float_22_5 1500.

(** The pass in which the sensor answers [example_reading] at time
    [now], the button at rest. *)
Definition example_pass (now : Z) : PassInput :=
  mkPassInput now (temperature example_reading) (humidity example_reading)
              (lightRaw example_reading) LOW now.

(** [sub] occurs in [l] as a run of consecutive elements. *)
Definition occurs {A} (sub l : list A) : Prop :=
  exists pre post, l = pre ++ sub ++ post.

(** The pass at time [t] of a quiet run: the button is at rest, both
    clock readings of the pass are [t], and the sensor would answer
    [temp t], [hum t], [light t]. *)
Definition idle_pass (temp hum : Z -> float) (light : Z -> Z) (t : Z)
  : PassInput :=
  mkPassInput t (temp t) (hum t) (light t) LOW t.

(** What the sensor of a quiet run answers at time [t]. *)
Definition sampled_at (temp hum : Z -> float) (light : Z -> Z) (t : Z)
  : EnvData :=
  mkEnvData (temp t) (hum t) (light t).

(** The frame drawn before anything was sampled. *)
Definition zero_frame : list Output := map oled (showSummary zero_data false).

(** The times 0, 1, ..., [n]. *)
Definition every_ms (n : nat) : list Z := map Z.of_nat (seq 0 (S n)).

(** Marks in the call log: an alarm evaluation drives the buzzer pin, a
    sampling cycle ends its serial record with the light value, a
    rendering cycle ends with the commit of the frame. *)
Definition is_evaluation (o : Output) : bool :=
  match o with
  | digitalWrite pin _ => pin =? BUZZER_PIN
  | _ => false
  end.

Definition is_log_record (o : Output) : bool :=
  match o with
  | Serial_println_int _ => true
  | _ => false
  end.

Definition is_commit (o : Output) : bool :=
  match o with
  | oled display => true
  | _ => false
  end.

Definition count (p : Output -> bool) (l : list Output) : nat :=
  List.length (filter p l).

(** The clock moved by [k] milliseconds, wrapping at 2^32: a pass with
    its two clock readings moved, the globals with their three stored
    times moved. *)
Definition shift_pass (k : Z) (env : PassInput) : PassInput :=
  mkPassInput (wrap (millis_loop env + k))
              (dht_temperature env) (dht_humidity env) (adc_light env)
              (button_level env)
              (wrap (millis_button env + k)).

Definition shift_globals (k : Z) (g : Globals) : Globals :=
  mkGlobals (currentMode g) (alarmOn g)
            (wrap (lastReadMillis g + k)) (wrap (lastDisplayMillis g + k))
            (latestData g)
            (wrap (lastButtonChange g + k)) (lastButtonState g).

(** Globals whose three stored times are all [t], and the pass whose
    two clock readings are [t] with the button pressed. *)
Definition globals_at (t : Z) : Globals :=
  mkGlobals SUMMARY false t t zero_data t LOW.

Definition pressed_pass (t : Z) : PassInput :=
  mkPassInput t (temperature example_reading) (humidity example_reading)
              (lightRaw example_reading) HIGH t.

(** The globals in which no sample has been taken yet. *)
Definition unsampled (g : Globals) : Prop :=
  latestData g = zero_data /\ alarmOn g = false /\ lastReadMillis g = 0.

(** A pass in which only the button matters: level [level] read at time
    [now]. *)
Definition button_reading (level now : Z) : PassInput :=
  mkPassInput now NAN NAN 0 level now.

(** A reading that repeats the stored level, or comes within the
    debounce window of the stored time. *)
Definition ignorable (g : Globals) (env : PassInput) : Prop :=
  button_level env = lastButtonState g
  \/ usub (millis_button env) (lastButtonChange g) <= 200.

(** The globals the firmware can be in at the top of a pass: those left
    by [setup], and those left by a pass whose button reading is a pin
    level. *)
Inductive reachable : Globals -> Prop :=
| reachable_setup (driver_ok : bool) :
    reachable (exec (setup driver_ok) initial_globals)
| reachable_loop (g : Globals) (env : PassInput) :
    reachable g -> is_level (button_level env) ->
    reachable (exec (loop env) g).

(* ------------------------------------------------------------------ *)
(** ** Vocabulary of the further properties *)

(** The level last written to [pin] in a call log, if the log writes it
    at all. *)
Fixpoint last_write (pin : Z) (log : list Output) : option Z :=
  match log with
  | [] => None
  | o :: rest =>
      match last_write pin rest with
      | Some level => Some level
      | None =>
          match o with
          | digitalWrite p level => if p =? pin then Some level else None
          | _ => None
          end
      end
  end.

(** Calls on the display, and among them the clearing of the frame. *)
Definition is_oled (o : Output) : bool :=
  match o with
  | oled _ => true
  | _ => false
  end.

Definition is_clear (o : Output) : bool :=
  match o with
  | oled clearDisplay => true
  | _ => false
  end.

(** The globals of the sampling side (alarm flag, latest reading, the two
    cadence timers) and those of the button side (mode, stored level,
    stored time). *)
Definition sampling_state (g : Globals) : bool * EnvData * Z * Z :=
  (alarmOn g, latestData g, lastReadMillis g, lastDisplayMillis g).

Definition button_state (g : Globals) : DisplayMode * Z * Z :=
  (currentMode g, lastButtonState g, lastButtonChange g).

(** Two passes in which the clock of [loop] and the sensor answer the
    same; the button may differ. *)
Definition same_sampling_inputs (e e' : PassInput) : Prop :=
  millis_loop e = millis_loop e' /\ EnvSensor_read e = EnvSensor_read e'.

(** A pass in which nothing is due and the button reading is not
    accepted, seen from the globals [g]. *)
Definition nothing_due (g : Globals) (env : PassInput) : Prop :=
  usub (millis_loop env) (lastReadMillis g) < 2000
  /\ usub (millis_loop env) (lastDisplayMillis g) < 500
  /\ ignorable g env.

(** The alarm flag is the threshold evaluation of the stored reading. *)
Definition alarm_current (g : Globals) : Prop :=
  alarmOn g = alarm_of (latestData g).

(** A reading is no better than another, channel by channel: the
    temperature and the humidity are absent before or not lower after,
    and the light is not higher after. *)
Definition no_better (d d' : EnvData) : Prop :=
  (isnan (temperature d) = true \/ ge (temperature d') (temperature d) = true)
  /\ (isnan (humidity d) = true \/ ge (humidity d') (humidity d) = true)
  /\ lightRaw d' <= lightRaw d.

(* ================================================================== *)
(** * Properties *)

(* ------------------------------------------------------------------ *)
(** ** Order of binary32 values *)

Lemma digits2_pos_bounds (m : positive) :
  2 ^ (Zpos (digits2_pos m) - 1) <= Zpos m < 2 ^ Zpos (digits2_pos m).
Proof.
  induction m as [m IH | m IH |]; cbn [digits2_pos].
  1, 2: rewrite Pos2Z.inj_succ;
    replace (Z.succ (Z.pos (digits2_pos m)) - 1)
      with (Z.succ (Z.pos (digits2_pos m) - 1)) by lia;
    rewrite !Z.pow_succ_r by lia; lia.
  cbn. lia.
Qed.

(** What validity says about a finite float's mantissa and exponent: the
    exponent is at least [emin32], the mantissa has at most 24 bits, and
    it has exactly 24 unless the exponent is the smallest one. *)
Lemma bounded_inv (m : positive) (e : Z) :
  bounded prec emax m e = true ->
  emin32 <= e /\ Zpos m < 2 ^ 24 /\ (emin32 < e -> 2 ^ 23 <= Zpos m).
Proof.
  unfold bounded, canonical_mantissa, fexp, emin, prec, emax, emin32.
  intros H. apply andb_true_iff in H. destruct H as [H _].
  apply Z.eqb_eq in H.
  pose proof (digits2_pos_bounds m) as [Hlo Hhi].
  set (d := Zpos (digits2_pos m)) in *.
  assert (Hd : 0 < d) by (unfold d; lia).
  assert (He : -149 <= e) by lia.
  assert (Hd24 : d <= 24) by lia.
  split; [exact He|]. split.
  - apply Z.lt_le_trans with (2 ^ d); [exact Hhi|].
    apply Z.pow_le_mono_r; lia.
  - intros Hlt. assert (d = 24) by lia. subst d.
    replace 23 with (Z.pos (digits2_pos m) - 1) by lia. exact Hlo.
Qed.

Lemma units_lt_of_exp_lt (m1 m2 : positive) (e1 e2 : Z) :
  bounded prec emax m1 e1 = true -> bounded prec emax m2 e2 = true ->
  e1 < e2 ->
  Zpos m1 * 2 ^ (e1 - emin32) < Zpos m2 * 2 ^ (e2 - emin32).
Proof.
  intros H1 H2 Hlt.
  destruct (bounded_inv _ _ H1) as (He1 & Hm1 & _).
  destruct (bounded_inv _ _ H2) as (He2 & _ & Hm2).
  specialize (Hm2 ltac:(lia)).
  replace (e2 - emin32) with ((e1 - emin32) + (e2 - e1)) by lia.
  rewrite Z.pow_add_r by lia.
  assert (Hp : 0 < 2 ^ (e1 - emin32)) by (apply Z.pow_pos_nonneg; lia).
  assert (Hq : 2 <= 2 ^ (e2 - e1)).
  { change 2 with (2 ^ 1) at 1. apply Z.pow_le_mono_r; lia. }
  change (2 ^ 24) with 16777216 in Hm1. change (2 ^ 23) with 8388608 in Hm2.
  set (P := 2 ^ (e1 - emin32)) in *. set (Q := 2 ^ (e2 - e1)) in *.
  assert (Z.pos m1 * P < 16777216 * P) by nia.
  assert (8388608 * (P * 2) <= Z.pos m2 * (P * 2)) by nia.
  assert (Z.pos m2 * (P * 2) <= Z.pos m2 * (P * Q)) by nia.
  lia.
Qed.


Lemma units_pos (m : positive) (e : Z) :
  emin32 <= e -> 0 < Zpos m * 2 ^ (e - emin32).
Proof.
  intros He. apply Z.mul_pos_pos; [lia|]. apply Z.pow_pos_nonneg; lia.
Qed.

Lemma magnitude_compare (m1 m2 : positive) (e1 e2 : Z) :
  bounded prec emax m1 e1 = true -> bounded prec emax m2 e2 = true ->
  match e1 ?= e2 with
  | Lt => Lt
  | Gt => Gt
  | Eq => Pos.compare_cont Eq m1 m2
  end = (Zpos m1 * 2 ^ (e1 - emin32) ?= Zpos m2 * 2 ^ (e2 - emin32)).
Proof.
  intros H1 H2. symmetry.
  destruct (Z.compare_spec e1 e2) as [E | L | G].
  - subst e2. destruct (bounded_inv _ _ H1) as (He & _).
    assert (Hp : 0 < 2 ^ (e1 - emin32)) by (apply Z.pow_pos_nonneg; lia).
    change (Pos.compare_cont Eq m1 m2) with (Zpos m1 ?= Zpos m2).
    destruct (Z.compare_spec (Zpos m1) (Zpos m2)) as [E' | L' | G'].
    + rewrite E'. apply Z.compare_refl.
    + apply Z.compare_lt_iff. nia.
    + apply Z.compare_gt_iff. nia.
  - apply Z.compare_lt_iff. apply units_lt_of_exp_lt; assumption.
  - apply Z.compare_gt_iff. apply units_lt_of_exp_lt; assumption.
Qed.

(** On well-formed finite floats the IEEE comparison is the comparison of
    the values. *)
Lemma SFcompare_units (x y : float) :
  valid x = true -> valid y = true ->
  is_finite x = true -> is_finite y = true ->
  SFcompare x y = Some (units x ?= units y).
Proof.
  destruct x as [sx | sx | | sx mx ex], y as [sy | sy | | sy my ey];
    cbn [is_finite valid valid_binary]; try discriminate; intros Hx Hy _ _.
  - reflexivity.
  - destruct (bounded_inv _ _ Hy) as (He & _).
    pose proof (units_pos my ey He).
    cbn [SFcompare units]. f_equal. symmetry.
    destruct sy; cbn [cond_Zopp];
      [apply Z.compare_gt_iff | apply Z.compare_lt_iff]; lia.
  - destruct (bounded_inv _ _ Hx) as (He & _).
    pose proof (units_pos mx ex He).
    cbn [SFcompare units]. f_equal. symmetry.
    destruct sx; cbn [cond_Zopp];
      [apply Z.compare_lt_iff | apply Z.compare_gt_iff]; lia.
  - destruct (bounded_inv _ _ Hx) as (Hex & _).
    destruct (bounded_inv _ _ Hy) as (Hey & _).
    pose proof (units_pos mx ex Hex) as Px.
    pose proof (units_pos my ey Hey) as Py.
    pose proof (magnitude_compare mx my ex ey Hx Hy) as Hm.
    cbn [SFcompare units]. f_equal.
    destruct sx, sy; cbn [cond_Zopp].
    + rewrite Z.compare_opp.
      rewrite (Z.compare_antisym (Zpos mx * 2 ^ (ex - emin32))), <- Hm.
      destruct (ex ?= ey); reflexivity.
    + symmetry. apply Z.compare_lt_iff; lia.
    + symmetry. apply Z.compare_gt_iff; lia.
    + exact Hm.
Qed.

Lemma SFleb_units (x y : float) :
  valid x = true -> valid y = true ->
  is_finite x = true -> is_finite y = true ->
  SFleb x y = (units x <=? units y).
Proof.
  intros Hx Hy Fx Fy. unfold SFleb. rewrite (SFcompare_units x y Hx Hy Fx Fy).
  unfold Z.leb. destruct (units x ?= units y); reflexivity.
Qed.

(** [x >= n], for the float of a small integer [n], is "the value of [x]
    is at least [n]". *)
Lemma ge_of_Z_at_least (x : float) (n : Z) :
  valid x = true ->
  valid (of_Z n) = true -> is_finite (of_Z n) = true ->
  units (of_Z n) = units_of_Z n ->
  (ge x (of_Z n) = true <-> at_least x n).
Proof.
  intros Hx Hn Fn Un. unfold ge.
  destruct x as [sx | sx | | sx mx ex] eqn:E.
  - rewrite SFleb_units by (assumption || reflexivity).
    rewrite Un. cbn [at_least]. apply Z.leb_le.
  - destruct (of_Z n) as [sn | sn | | sn mn en]; try discriminate Fn;
      cbn; destruct sx; split; congruence.
  - destruct (of_Z n) as [sn | sn | | sn mn en]; cbn; split;
      (congruence || tauto).
  - rewrite SFleb_units by (assumption || reflexivity).
    rewrite Un. cbn [at_least]. apply Z.leb_le.
Qed.

Lemma ge_TEMP_HIGH_THRESHOLD (x : float) :
  valid x = true -> (ge x TEMP_HIGH_THRESHOLD = true <-> at_least x 30).
Proof. intros Hx. apply (ge_of_Z_at_least x 30 Hx); reflexivity. Qed.

Lemma ge_HUMID_HIGH_THRESHOLD (x : float) :
  valid x = true -> (ge x HUMID_HIGH_THRESHOLD = true <-> at_least x 70).
Proof. intros Hx. apply (ge_of_Z_at_least x 70 Hx); reflexivity. Qed.

(* ------------------------------------------------------------------ *)
(** ** Threshold evaluation *)

Lemma updateAlarm_eq (data : EnvData) (g : Globals) :
  updateAlarm data g =
  (tt, set_alarmOn (alarm_of data) g,
   [digitalWrite BUZZER_PIN (if alarm_of data then HIGH else LOW)]).
Proof. reflexivity. Qed.

Lemma alarm_of_true_iff (data : EnvData) :
  alarm_of data = true <->
  (isnan (temperature data) = false
   /\ ge (temperature data) TEMP_HIGH_THRESHOLD = true)
  \/ (isnan (humidity data) = false
      /\ ge (humidity data) HUMID_HIGH_THRESHOLD = true)
  \/ lightRaw data <= LIGHT_LOW_THRESHOLD.
Proof.
  unfold alarm_of, exec, updateAlarm, bind, modify, gets, emit; cbn.
  rewrite !orb_true_iff, !andb_true_iff, !negb_true_iff, Z.leb_le.
  tauto.
Qed.

(** C1. [updateAlarm] sets [alarmOn] to true exactly when the temperature
    is present and at least 30.0, or the humidity is present and at
    least 70.0, or the light reading is at most 1000; it drives the
    buzzer pin to that state and touches no other global. For
    well-formed floats "at least" is the order of the values. A NaN
    temperature (or humidity) contributes nothing: the alarm is then
    decided by the other two conditions alone. *)
Theorem updateAlarm_policy (data : EnvData) (g : Globals) :
  let g' := exec (updateAlarm data) g in
  let temp_high := isnan (temperature data) = false
                   /\ ge (temperature data) TEMP_HIGH_THRESHOLD = true in
  let hum_high := isnan (humidity data) = false
                  /\ ge (humidity data) HUMID_HIGH_THRESHOLD = true in
  let light_low := lightRaw data <= 1000 in
  (alarmOn g' = true <-> temp_high \/ hum_high \/ light_low)
  /\ (valid (temperature data) = true -> valid (humidity data) = true ->
      (alarmOn g' = true <->
       (isnan (temperature data) = false /\ at_least (temperature data) 30)
       \/ (isnan (humidity data) = false /\ at_least (humidity data) 70)
       \/ light_low))
  /\ (isnan (temperature data) = true ->
      (alarmOn g' = true <-> hum_high \/ light_low))
  /\ (isnan (humidity data) = true ->
      (alarmOn g' = true <-> temp_high \/ light_low))
  /\ (isnan (temperature data) = true -> isnan (humidity data) = true ->
      (alarmOn g' = true <-> light_low))
  /\ g' = set_alarmOn (alarmOn g') g
  /\ calls (updateAlarm data) g =
     [digitalWrite BUZZER_PIN (if alarmOn g' then HIGH else LOW)].
Proof.
  intros g' temp_high hum_high light_low.
  assert (Hg : g' = set_alarmOn (alarm_of data) g).
  { unfold g', exec. rewrite updateAlarm_eq. reflexivity. }
  assert (Ha : alarmOn g' = alarm_of data) by (rewrite Hg; reflexivity).
  pose proof (alarm_of_true_iff data) as Hiff.
  fold temp_high hum_high in Hiff.
  change (lightRaw data <= LIGHT_LOW_THRESHOLD) with light_low in Hiff.
  rewrite Ha.
  split; [exact Hiff|].
  split.
  { intros Vt Vh. rewrite Hiff. unfold temp_high, hum_high.
    rewrite (ge_TEMP_HIGH_THRESHOLD _ Vt), (ge_HUMID_HIGH_THRESHOLD _ Vh).
    tauto. }
  split.
  { intros Nt. rewrite Hiff. unfold temp_high. rewrite Nt.
    split; [intros [[? _] | ?]; [discriminate | assumption] | tauto]. }
  split.
  { intros Nh. rewrite Hiff. unfold hum_high. rewrite Nh.
    split; [intros [? | [[? _] | ?]]; [tauto | discriminate | tauto] | tauto]. }
  split.
  { intros Nt Nh. rewrite Hiff. unfold temp_high, hum_high. rewrite Nt, Nh.
    split; [|tauto].
    intros [[? _] | [[? _] | ?]]; [discriminate | discriminate | assumption]. }
  split.
  { exact Hg. }
  unfold calls. rewrite updateAlarm_eq. reflexivity.
Qed.

Lemma updateAlarm_policy_witness :
  alarmOn (exec (updateAlarm (mkEnvData NAN (of_Z 75) 1500)) initial_globals)
  = true <->
  (isnan NAN = false /\ at_least NAN 30)
  \/ (isnan (of_Z 75) = false /\ at_least (of_Z 75) 70)
  \/ 1500 <= 1000.
Proof.
  apply (updateAlarm_policy (mkEnvData NAN (of_Z 75) 1500) initial_globals);
    reflexivity.
Defined.

(* ------------------------------------------------------------------ *)
(** ** The debouncer *)

Lemma usub_true_elapsed (t_last t_now : Z) :
  t_last <= t_now -> t_now - t_last < modulus ->
  usub (wrap t_now) (wrap t_last) = t_now - t_last.
Proof.
  intros Hle Hlt. unfold usub, wrap.
  rewrite <- Zminus_mod. apply Z.mod_small. lia.
Qed.

Lemma usub_in_range (a b : Z) :
  in_range a -> in_range b -> b <= a -> usub a b = a - b.
Proof.
  unfold in_range, usub, wrap. intros Ha Hb Hle. apply Z.mod_small. lia.
Qed.

Lemma accepted_true_iff (env : PassInput) (g : Globals) :
  accepted env g = true <->
  button_level env <> lastButtonState g
  /\ usub (millis_button env) (lastButtonChange g) > BUTTON_DEBOUNCE_MS.
Proof.
  unfold accepted.
  rewrite andb_true_iff, negb_true_iff, Z.eqb_neq, Z.gtb_ltb, Z.ltb_lt.
  intuition lia.
Qed.

(** [handleButton] in one equation: nothing happens unless the reading
    is accepted; an accepted reading is stored with its time, and flips
    the mode when it is [HIGH]. *)
Lemma handleButton_eq (env : PassInput) (g : Globals) :
  handleButton env g =
  (tt,
   if accepted env g then
     let g1 := set_lastButtonState (button_level env)
                 (set_lastButtonChange (millis_button env) g) in
     if button_level env =? HIGH then
       set_currentMode
         (match currentMode g with SUMMARY => DETAIL | DETAIL => SUMMARY end) g1
     else g1
   else g,
   []).
Proof.
  destruct g as [mode on lastRead lastDisplay data lastChange lastState].
  unfold handleButton, accepted, bind, gets, when, modify, ret;
    cbn [lastButtonState lastButtonChange currentMode].
  destruct (negb (button_level env =? lastState)
            && (usub (millis_button env) lastChange >? BUTTON_DEBOUNCE_MS));
    [|reflexivity].
  destruct (button_level env =? HIGH); [|reflexivity].
  destruct mode; reflexivity.
Qed.

(** C2. A reading is accepted as the new stable level, and stored
    together with its time, exactly when it differs from the stored
    level and more than 200 ms have elapsed on the 32-bit millisecond
    clock since the stored time; otherwise the globals are left as they
    were, so a differing reading inside the window leaves both the
    level and the timer untouched. While the clock has not wrapped
    since the stored time the elapsed time is the plain difference. *)
Theorem handleButton_accepts_iff (env : PassInput) (g : Globals) :
  let g' := exec (handleButton env) g in
  let differs := button_level env <> lastButtonState g in
  let elapsed := usub (millis_button env) (lastButtonChange g) in
  (differs /\ elapsed > 200 ->
     lastButtonState g' = button_level env
     /\ lastButtonChange g' = millis_button env)
  /\ (~ (differs /\ elapsed > 200) -> g' = g)
  /\ (differs -> elapsed <= 200 ->
      lastButtonState g' = lastButtonState g
      /\ lastButtonChange g' = lastButtonChange g
      /\ g' = g)
  /\ (in_range (millis_button env) -> in_range (lastButtonChange g) ->
      lastButtonChange g <= millis_button env ->
      elapsed = millis_button env - lastButtonChange g)
  /\ calls (handleButton env) g = [].
Proof.
  intros g' differs elapsed.
  pose proof (accepted_true_iff env g) as Hacc.
  change BUTTON_DEBOUNCE_MS with 200 in Hacc.
  fold differs elapsed in Hacc.
  assert (Hg : g' = snd (fst (handleButton env g))) by reflexivity.
  rewrite handleButton_eq in Hg. cbn [fst snd] in Hg.
  assert (Hno : ~ (differs /\ elapsed > 200) -> g' = g).
  { intros Hn. destruct (accepted env g) eqn:E; [|exact Hg].
    exfalso. apply Hn, Hacc. reflexivity. }
  split.
  { intros Hc. apply Hacc in Hc. rewrite Hc in Hg.
    destruct (button_level env =? HIGH); rewrite Hg; split; reflexivity. }
  split; [exact Hno|].
  split.
  { intros _ Hle. assert (E : g' = g) by (apply Hno; intros [_ ?]; lia).
    rewrite E. repeat split. }
  split.
  { intros Hn Hl Hle. apply usub_in_range; assumption. }
  unfold calls. rewrite handleButton_eq. reflexivity.
Qed.

Lemma handleButton_accepts_iff_witness :
  lastButtonState
    (exec (handleButton (button_reading HIGH 250)) initial_globals) = HIGH
  /\ lastButtonChange
       (exec (handleButton (button_reading HIGH 250)) initial_globals) = 250.
Proof.
  apply (handleButton_accepts_iff (button_reading HIGH 250) initial_globals).
  split; [discriminate | reflexivity].
Defined.

Lemma exec_handleButton (env : PassInput) (g : Globals) :
  exec (handleButton env) g =
  if accepted env g then
    let g1 := set_lastButtonState (button_level env)
                (set_lastButtonChange (millis_button env) g) in
    if button_level env =? HIGH then
      set_currentMode
        (match currentMode g with SUMMARY => DETAIL | DETAIL => SUMMARY end) g1
    else g1
  else g.
Proof. unfold exec. rewrite handleButton_eq. reflexivity. Qed.

Lemma toggled_refl (g : Globals) : toggled g g = false.
Proof. unfold toggled. destruct (currentMode g); reflexivity. Qed.

Lemma toggled_true_iff (g g' : Globals) :
  toggled g g' = true <-> currentMode g' <> currentMode g.
Proof.
  unfold toggled. destruct (currentMode g), (currentMode g'); cbn;
    split; congruence.
Qed.

Lemma toggled_false_iff (g g' : Globals) :
  toggled g g' = false <-> currentMode g' = currentMode g.
Proof.
  unfold toggled. destruct (currentMode g), (currentMode g'); cbn;
    split; congruence.
Qed.

Lemma toggled_handleButton (env : PassInput) (g : Globals) :
  toggled g (exec (handleButton env) g)
  = accepted env g && (button_level env =? HIGH).
Proof.
  rewrite exec_handleButton. destruct (accepted env g); cbn [andb].
  - destruct (button_level env =? HIGH); unfold toggled; cbn;
      destruct (currentMode g); reflexivity.
  - apply toggled_refl.
Qed.

(** The mode flips in a poll exactly when the reading is [HIGH], differs
    from the stored level and comes more than 200 ms after the stored
    time. *)
Lemma toggled_handleButton_iff (env : PassInput) (g : Globals) :
  toggled g (exec (handleButton env) g) = true <->
  button_level env = HIGH
  /\ button_level env <> lastButtonState g
  /\ usub (millis_button env) (lastButtonChange g) > 200.
Proof.
  rewrite toggled_handleButton, andb_true_iff, accepted_true_iff.
  change BUTTON_DEBOUNCE_MS with 200. rewrite Z.eqb_eq. tauto.
Qed.

(** When the stored level is a pin level, a flip starts from LOW. *)
Lemma toggled_from_low (env : PassInput) (g : Globals) :
  is_level (lastButtonState g) ->
  toggled g (exec (handleButton env) g) = true ->
  lastButtonState g = LOW.
Proof.
  intros Hlvl Ht. apply toggled_handleButton_iff in Ht.
  destruct Ht as (Hh & Hd & _).
  destruct Hlvl as [Hl | Hl]; [exact Hl | congruence].
Qed.

(** The globals after an accepted reading. *)
Lemma accepted_fields (env : PassInput) (g : Globals) :
  accepted env g = true ->
  lastButtonState (exec (handleButton env) g) = button_level env
  /\ lastButtonChange (exec (handleButton env) g) = millis_button env.
Proof.
  intros H. rewrite exec_handleButton, H.
  destruct (button_level env =? HIGH); split; reflexivity.
Qed.

Lemma ignorable_not_accepted (g : Globals) (env : PassInput) :
  ignorable g env -> accepted env g = false.
Proof.
  intros H. destruct (accepted env g) eqn:E; [|reflexivity].
  apply accepted_true_iff in E. change BUTTON_DEBOUNCE_MS with 200 in E.
  destruct H; lia.
Qed.

Lemma polls_ignorable (envs : list PassInput) (g : Globals) :
  Forall (ignorable g) envs -> polls envs g = (g, 0%nat).
Proof.
  induction 1 as [|env rest Henv _ IH]; [reflexivity|].
  cbn [polls]. rewrite exec_handleButton, (ignorable_not_accepted _ _ Henv).
  rewrite IH, toggled_refl. reflexivity.
Qed.

Lemma polls_app (a b : list PassInput) (g : Globals) :
  polls (a ++ b) g =
  (fst (polls b (fst (polls a g))),
   (snd (polls a g) + snd (polls b (fst (polls a g))))%nat).
Proof.
  revert g. induction a as [|env a IH]; intros g; cbn [app polls].
  - cbn [fst snd]. destruct (polls b g); reflexivity.
  - rewrite IH. destruct (polls a (exec (handleButton env) g)) as [g2 n].
    cbn [fst snd]. rewrite Nat.add_assoc. reflexivity.
Qed.

Lemma polls_cons (env : PassInput) (rest : list PassInput) (g : Globals) :
  polls (env :: rest) g =
  (fst (polls rest (exec (handleButton env) g)),
   ((if toggled g (exec (handleButton env) g) then 1 else 0)
    + snd (polls rest (exec (handleButton env) g)))%nat).
Proof.
  cbn [polls]. destruct (polls rest (exec (handleButton env) g)); reflexivity.
Qed.

Lemma Forall_ignorable_after (env : PassInput) (g : Globals)
      (level : Z) (rest : list PassInput) :
  accepted env g = true ->
  button_level env = level ->
  Forall (fun e => button_level e = level
                   \/ usub (millis_button e) (millis_button env) <= 200) rest ->
  Forall (ignorable (exec (handleButton env) g)) rest.
Proof.
  intros Hacc Hlvl Hrest.
  destruct (accepted_fields env g Hacc) as [Hs Hc].
  eapply Forall_impl; [|exact Hrest].
  intros e He. unfold ignorable. rewrite Hs, Hc, Hlvl. exact He.
Qed.

(** C3. The mode flips in a poll exactly when the reading is accepted
    and is [HIGH], so (the stored level being a pin level) only on an
    accepted LOW-to-HIGH change; an accepted HIGH-to-LOW change stores
    the level and its time and leaves the mode alone. Hence whatever is
    read within 200 ms of an accepted reading is absorbed: the accepted
    reading and the chatter after it give at most one toggle. And
    LOW-to-HIGH, HIGH-to-LOW, LOW-to-HIGH, each more than 200 ms after
    the one before, with any held or in-window readings in between,
    give exactly two toggles. *)
Theorem toggle_only_on_rising_edge (g : Globals) (env : PassInput) :
  let g' := exec (handleButton env) g in
  (toggled g g' = true <->
     button_level env = HIGH
     /\ button_level env <> lastButtonState g
     /\ usub (millis_button env) (lastButtonChange g) > 200)
  /\ (is_level (lastButtonState g) -> toggled g g' = true ->
      lastButtonState g = LOW /\ lastButtonState g' = HIGH)
  /\ (lastButtonState g = HIGH -> button_level env = LOW ->
      currentMode g' = currentMode g
      /\ (usub (millis_button env) (lastButtonChange g) > 200 ->
          lastButtonState g' = LOW
          /\ lastButtonChange g' = millis_button env))
  /\ (forall chatter : list PassInput,
        accepted env g = true ->
        Forall (fun e => usub (millis_button e) (millis_button env) <= 200)
               chatter ->
        polls chatter g' = (g', 0%nat)
        /\ (snd (polls (env :: chatter) g) <= 1)%nat)
  /\ (forall (quiet1 : list PassInput) (fall : PassInput)
             (quiet2 : list PassInput) (rise : PassInput),
        lastButtonState g = LOW ->
        button_level env = HIGH ->
        usub (millis_button env) (lastButtonChange g) > 200 ->
        Forall (fun e => button_level e = HIGH
                         \/ usub (millis_button e) (millis_button env) <= 200)
               quiet1 ->
        button_level fall = LOW ->
        usub (millis_button fall) (millis_button env) > 200 ->
        Forall (fun e => button_level e = LOW
                         \/ usub (millis_button e) (millis_button fall) <= 200)
               quiet2 ->
        button_level rise = HIGH ->
        usub (millis_button rise) (millis_button fall) > 200 ->
        snd (polls (env :: quiet1 ++ fall :: quiet2 ++ [rise]) g) = 2%nat
        /\ currentMode
             (fst (polls (env :: quiet1 ++ fall :: quiet2 ++ [rise]) g))
           = currentMode g).
Proof.
  intros g'.
  pose proof (toggled_handleButton_iff env g) as Htog. fold g' in Htog.
  split; [exact Htog|].
  split.
  { intros Hlvl Ht. split; [exact (toggled_from_low env g Hlvl Ht)|].
    apply Htog in Ht. destruct Ht as (Hh & Hd & He).
    assert (Hacc : accepted env g = true).
    { apply accepted_true_iff. change BUTTON_DEBOUNCE_MS with 200. tauto. }
    destruct (accepted_fields env g Hacc) as [Hs _].
    unfold g'. rewrite Hs. exact Hh. }
  split.
  { intros Hs Hl. split.
    - apply toggled_false_iff. unfold g'.
      rewrite toggled_handleButton, Hl. apply andb_false_r.
    - intros He.
      assert (Hacc : accepted env g = true).
      { apply accepted_true_iff. change BUTTON_DEBOUNCE_MS with 200.
        split; [rewrite Hl, Hs; discriminate | exact He]. }
      destruct (accepted_fields env g Hacc) as [Hs' Hc'].
      unfold g'. rewrite Hs', Hc'. split; [exact Hl | reflexivity]. }
  split.
  { intros chatter Hacc Hin.
    assert (Hq : polls chatter g' = (g', 0%nat)).
    { apply polls_ignorable.
      apply (Forall_ignorable_after env g (button_level env)); auto.
      eapply Forall_impl; [|exact Hin]. intros e He. right. exact He. }
    split; [exact Hq|].
    rewrite polls_cons. fold g'. rewrite Hq. cbn [snd].
    destruct (toggled g g'); cbn; lia. }
  intros quiet1 fall quiet2 rise Hlow Hhigh He1 Hq1 Hfl Hef Hq2 Hrl Her.
  assert (Hacc1 : accepted env g = true).
  { apply accepted_true_iff. change BUTTON_DEBOUNCE_MS with 200.
    split; [rewrite Hhigh, Hlow; discriminate | exact He1]. }
  destruct (accepted_fields env g Hacc1) as [Hs1 Hc1]. fold g' in Hs1, Hc1.
  assert (Hm1 : currentMode g' <> currentMode g).
  { apply toggled_true_iff, Htog. rewrite Hhigh, Hlow.
    repeat split; [discriminate | exact He1]. }
  assert (Hp1 : polls quiet1 g' = (g', 0%nat)).
  { apply polls_ignorable.
    apply (Forall_ignorable_after env g HIGH); assumption. }
  assert (Hacc2 : accepted fall g' = true).
  { apply accepted_true_iff. change BUTTON_DEBOUNCE_MS with 200.
    rewrite Hs1, Hc1, Hfl, Hhigh. split; [discriminate | exact Hef]. }
  set (g2 := exec (handleButton fall) g').
  destruct (accepted_fields fall g' Hacc2) as [Hs2 Hc2]. fold g2 in Hs2, Hc2.
  assert (Ht2 : toggled g' g2 = false).
  { unfold g2. rewrite toggled_handleButton, Hfl. apply andb_false_r. }
  assert (Hp2 : polls quiet2 g2 = (g2, 0%nat)).
  { apply polls_ignorable.
    apply (Forall_ignorable_after fall g' LOW); assumption. }
  assert (Hacc3 : accepted rise g2 = true).
  { apply accepted_true_iff. change BUTTON_DEBOUNCE_MS with 200.
    rewrite Hs2, Hc2, Hrl, Hfl. split; [discriminate | exact Her]. }
  set (g3 := exec (handleButton rise) g2).
  assert (Ht3 : toggled g2 g3 = true).
  { unfold g3. rewrite toggled_handleButton, Hacc3, Hrl. reflexivity. }
  assert (Ht1 : toggled g g' = true) by (apply toggled_true_iff; exact Hm1).
  rewrite polls_cons. fold g'. rewrite polls_app, Hp1. cbn [fst snd].
  rewrite polls_cons. fold g2. rewrite polls_app, Hp2. cbn [fst snd].
  rewrite polls_cons. fold g3. cbn [polls fst snd].
  rewrite Ht1, Ht2, Ht3. split; [reflexivity|].
  apply negb_false_iff in Ht2. unfold toggled in Ht1, Ht3.
  apply negb_true_iff in Ht1, Ht3.
  destruct (currentMode g), (currentMode g'), (currentMode g2), (currentMode g3);
    (reflexivity || discriminate).
Qed.

Lemma toggle_only_on_rising_edge_witness :
  snd (polls (button_reading HIGH 300
              :: [button_reading LOW 350; button_reading HIGH 450]
              ++ button_reading LOW 600
              :: [button_reading LOW 700] ++ [button_reading HIGH 900])
             initial_globals) = 2%nat
  /\ currentMode
       (fst (polls (button_reading HIGH 300
                    :: [button_reading LOW 350; button_reading HIGH 450]
                    ++ button_reading LOW 600
                    :: [button_reading LOW 700] ++ [button_reading HIGH 900])
                   initial_globals))
     = currentMode initial_globals.
Proof.
  apply (toggle_only_on_rising_edge initial_globals (button_reading HIGH 300)).
  - reflexivity.
  - reflexivity.
  - reflexivity.
  - apply Forall_cons; [right; vm_compute; discriminate|].
    apply Forall_cons; [left; reflexivity | apply Forall_nil].
  - reflexivity.
  - reflexivity.
  - apply Forall_cons; [left; reflexivity | apply Forall_nil].
  - reflexivity.
  - reflexivity.
Defined.

(* ------------------------------------------------------------------ *)
(** ** One pass of the scheduler *)

(** [loop] in one equation: the sampling step, then the rendering step
    on what the sampling step left, then the debouncer. *)
Lemma loop_eq (env : PassInput) (g : Globals) :
  loop env g =
  (tt,
   exec (handleButton env) (after_render env (after_sample env g)),
   (if sample_due env g
    then sample_calls (EnvSensor_read env) (alarm_of (EnvSensor_read env))
    else [])
   ++ (if render_due env g
       then map oled (render (currentMode g)
                             (latestData (after_sample env g))
                             (alarmOn (after_sample env g)))
       else [])).
Proof.
  destruct g as [mode on lastRead lastDisplay data lastChange lastState].
  lazy beta iota zeta delta
    [loop handleButton updateAlarm after_sample after_render
     render_due sample_due accepted alarm_of exec sample_calls render
     bind when gets modify emit emit_all ret fst snd
     currentMode alarmOn lastReadMillis lastDisplayMillis latestData
     lastButtonChange lastButtonState set_currentMode set_alarmOn
     set_lastReadMillis set_lastDisplayMillis set_latestData
     set_lastButtonChange set_lastButtonState initial_globals].
  destruct mode;
    destruct (usub (millis_loop env) lastRead >=? READ_INTERVAL_MS);
    destruct (usub (millis_loop env) lastDisplay >=? DISPLAY_INTERVAL_MS);
    lazy beta iota zeta;
    destruct (negb (button_level env =? lastState)
              && (usub (millis_button env) lastChange >? BUTTON_DEBOUNCE_MS));
    lazy beta iota zeta;
    try destruct (button_level env =? HIGH);
    lazy beta iota zeta;
    rewrite ?app_nil_r; reflexivity.
Qed.

Lemma exec_loop (env : PassInput) (g : Globals) :
  exec (loop env) g
  = exec (handleButton env) (after_render env (after_sample env g)).
Proof. unfold exec at 1. rewrite loop_eq. reflexivity. Qed.

Lemma calls_loop (env : PassInput) (g : Globals) :
  calls (loop env) g =
  (if sample_due env g
   then sample_calls (EnvSensor_read env) (alarm_of (EnvSensor_read env))
   else [])
  ++ (if render_due env g
      then map oled (render (currentMode g)
                            (latestData (after_sample env g))
                            (alarmOn (after_sample env g)))
      else []).
Proof. unfold calls. rewrite loop_eq. reflexivity. Qed.

(** The sampling and rendering steps leave the mode and the debouncer's
    two globals alone. *)
Lemma before_button_fields (env : PassInput) (g : Globals) :
  let g1 := after_render env (after_sample env g) in
  currentMode g1 = currentMode g
  /\ lastButtonState g1 = lastButtonState g
  /\ lastButtonChange g1 = lastButtonChange g.
Proof.
  unfold after_render, after_sample.
  destruct (sample_due env g);
    match goal with |- context [render_due env ?x] =>
      destruct (render_due env x) end;
    repeat split.
Qed.

Lemma accepted_before_button (env : PassInput) (g : Globals) :
  accepted env (after_render env (after_sample env g)) = accepted env g.
Proof.
  destruct (before_button_fields env g) as (_ & Hs & Hc).
  unfold accepted. rewrite Hs, Hc. reflexivity.
Qed.

(** The sampling and rendering steps leave the alarm flag and the latest
    reading as the sampling step set them. *)
Lemma after_render_data (env : PassInput) (g : Globals) :
  latestData (after_render env g) = latestData g
  /\ alarmOn (after_render env g) = alarmOn g
  /\ lastReadMillis (after_render env g) = lastReadMillis g.
Proof. unfold after_render. destruct (render_due env g); repeat split. Qed.

Lemma handleButton_data (env : PassInput) (g : Globals) :
  latestData (exec (handleButton env) g) = latestData g
  /\ alarmOn (exec (handleButton env) g) = alarmOn g
  /\ lastReadMillis (exec (handleButton env) g) = lastReadMillis g
  /\ lastDisplayMillis (exec (handleButton env) g) = lastDisplayMillis g.
Proof.
  rewrite exec_handleButton.
  destruct (accepted env g); [destruct (button_level env =? HIGH)|];
    repeat split.
Qed.

(** The mode and the debouncer's globals after a pass are those
    [handleButton] alone would leave. *)
Lemma loop_button_fields (env : PassInput) (g : Globals) :
  currentMode (exec (loop env) g) = currentMode (exec (handleButton env) g)
  /\ lastButtonState (exec (loop env) g)
     = lastButtonState (exec (handleButton env) g)
  /\ lastButtonChange (exec (loop env) g)
     = lastButtonChange (exec (handleButton env) g).
Proof.
  rewrite exec_loop, !exec_handleButton, accepted_before_button.
  destruct (before_button_fields env g) as (Hm & Hs & Hc).
  destruct (accepted env g); [destruct (button_level env =? HIGH)|]; cbn;
    rewrite ?Hm, ?Hs, ?Hc; repeat split.
Qed.

Lemma exec_setup (driver_ok : bool) (g : Globals) :
  exec (setup driver_ok) g = g.
Proof. destruct driver_ok; reflexivity. Qed.

Lemma exec_run_cons (env : PassInput) (rest : list PassInput) (g : Globals) :
  exec (run (env :: rest)) g = exec (run rest) (exec (loop env) g).
Proof.
  unfold exec. cbn [run]. unfold bind.
  destruct (loop env g) as [[u g1] o1]. cbn [fst snd].
  destruct (run rest g1) as [[u2 g2] o2]. reflexivity.
Qed.

Lemma calls_run_cons (env : PassInput) (rest : list PassInput) (g : Globals) :
  calls (run (env :: rest)) g
  = calls (loop env) g ++ calls (run rest) (exec (loop env) g).
Proof.
  unfold calls, exec. cbn [run]. unfold bind.
  destruct (loop env g) as [[u g1] o1]. cbn [fst snd].
  destruct (run rest g1) as [[u2 g2] o2]. reflexivity.
Qed.

Lemma reachable_level (g : Globals) :
  reachable g -> is_level (lastButtonState g).
Proof.
  induction 1 as [ok | g env _ IH Hlvl].
  - rewrite exec_setup. left. reflexivity.
  - destruct (loop_button_fields env g) as (_ & Hs & _). rewrite Hs.
    rewrite exec_handleButton.
    destruct (accepted env g); [destruct (button_level env =? HIGH)|];
      assumption.
Qed.

(** Passes whose button readings all come within the window of the
    stored time change neither the mode nor the debouncer's globals. *)
Lemma run_within_window (rest : list PassInput) (g : Globals) :
  Forall (fun e => usub (millis_button e) (lastButtonChange g) <= 200) rest ->
  currentMode (exec (run rest) g) = currentMode g
  /\ lastButtonState (exec (run rest) g) = lastButtonState g
  /\ lastButtonChange (exec (run rest) g) = lastButtonChange g.
Proof.
  revert g. induction rest as [|env rest IH]; intros g Hall.
  - repeat split.
  - inversion Hall as [|e l He Hrest]; subst.
    rewrite exec_run_cons.
    destruct (loop_button_fields env g) as (Hm & Hs & Hc).
    assert (Hig : exec (handleButton env) g = g).
    { rewrite exec_handleButton, ignorable_not_accepted; [reflexivity|].
      right. exact He. }
    rewrite Hig in Hm, Hs, Hc.
    destruct (IH (exec (loop env) g)) as (Hm' & Hs' & Hc').
    { rewrite Hc. exact Hrest. }
    rewrite Hm', Hs', Hc', Hm, Hs, Hc. repeat split.
Qed.

(** C4. The mode is [SUMMARY] when [setup] returns and is always one of
    [SUMMARY] and [DETAIL]. In a pass from a reachable state it changes
    exactly when the stored level is LOW, the reading is HIGH and more
    than 200 ms have elapsed on the clock since the stored time, and it
    then flips; in every other pass it stays. After a pass that changed
    it, no pass whose button reading comes within 200 ms changes it
    again. *)
Theorem currentMode_changes_only_on_edge
        (g : Globals) (env : PassInput) (rest : list PassInput) :
  reachable g ->
  is_level (button_level env) ->
  let g' := exec (loop env) g in
  let rising_edge :=
    lastButtonState g = LOW /\ button_level env = HIGH
    /\ usub (millis_button env) (lastButtonChange g) > 200 in
  (forall driver_ok,
      currentMode (exec (setup driver_ok) initial_globals) = SUMMARY)
  /\ (currentMode g = SUMMARY \/ currentMode g = DETAIL)
  /\ (currentMode g' <> currentMode g <-> rising_edge)
  /\ (rising_edge ->
      currentMode g'
      = match currentMode g with SUMMARY => DETAIL | DETAIL => SUMMARY end)
  /\ (~ rising_edge -> currentMode g' = currentMode g)
  /\ (currentMode g' <> currentMode g ->
      Forall (fun e => usub (millis_button e) (millis_button env) <= 200) rest ->
      currentMode (exec (run rest) g') = currentMode g').
Proof.
  intros Hreach Hlvl g' rising_edge.
  pose proof (reachable_level g Hreach) as Hstored.
  destruct (loop_button_fields env g) as (Hm & Hs & Hc). fold g' in Hm, Hs, Hc.
  pose proof (toggled_handleButton_iff env g) as Htog.
  assert (Hiff : currentMode g' <> currentMode g <-> rising_edge).
  { rewrite Hm, <- toggled_true_iff. unfold rising_edge. split.
    - intros Ht. pose proof (toggled_from_low env g Hstored Ht) as Hl.
      apply Htog in Ht. tauto.
    - intros (Hl & Hh & He). apply Htog. rewrite Hh, Hl.
      repeat split; [discriminate | exact He]. }
  split.
  { intros ok. rewrite exec_setup. reflexivity. }
  split.
  { destruct (currentMode g); [left | right]; reflexivity. }
  split; [exact Hiff|].
  split.
  { intros Hr. apply Hiff in Hr.
    destruct (currentMode g), (currentMode g'); congruence. }
  split.
  { intros Hn. destruct (currentMode g) eqn:E1, (currentMode g') eqn:E2;
      try reflexivity; exfalso; apply Hn, Hiff; discriminate. }
  intros Hchg Hwin.
  apply Hiff in Hchg. destruct Hchg as (Hl & Hh & He).
  assert (Hacc : accepted env g = true).
  { apply accepted_true_iff. change BUTTON_DEBOUNCE_MS with 200.
    split; [rewrite Hh, Hl; discriminate | exact He]. }
  destruct (accepted_fields env g Hacc) as [_ Hc'].
  apply run_within_window. rewrite Hc, Hc'. exact Hwin.
Qed.

Lemma currentMode_changes_only_on_edge_witness :
  currentMode
    (exec (run [button_reading LOW 350; button_reading HIGH 480])
          (exec (loop (button_reading HIGH 300)) initial_globals))
  = currentMode (exec (loop (button_reading HIGH 300)) initial_globals).
Proof.
  apply (currentMode_changes_only_on_edge initial_globals
           (button_reading HIGH 300)
           [button_reading LOW 350; button_reading HIGH 480]).
  - exact (reachable_setup true).
  - right. reflexivity.
  - vm_compute. discriminate.
  - apply Forall_cons; [vm_compute; discriminate|].
    apply Forall_cons; [vm_compute; discriminate | apply Forall_nil].
Defined.

(** C5. In every pass the calls of the sampling step, when it is due,
    come before the frame of the rendering step, when it is due, and
    the frame is drawn from the reading and the alarm flag the sampling
    step left. So when both are due the frame shows the reading just
    taken and the alarm just evaluated from it; when only rendering is
    due it shows the stored ones. *)
Theorem sample_precedes_render (env : PassInput) (g : Globals) :
  let now := millis_loop env in
  let data := EnvSensor_read env in
  let alarm := alarmOn (exec (updateAlarm data) g) in
  (usub now (lastReadMillis g) >= 2000 ->
   usub now (lastDisplayMillis g) >= 500 ->
   calls (loop env) g
   = (digitalWrite BUZZER_PIN (if alarm then HIGH else LOW)
      :: [Serial_print "T="; Serial_print_float (temperature data) 2;
          Serial_print "C, H="; Serial_print_float (humidity data) 2;
          Serial_print "%, L="; Serial_println_int (lightRaw data)])
     ++ map oled (match currentMode g with
                  | SUMMARY => showSummary data alarm
                  | DETAIL => showDetail data
                  end)
   /\ latestData (exec (loop env) g) = data
   /\ alarmOn (exec (loop env) g) = alarm)
  /\ (usub now (lastReadMillis g) < 2000 ->
      usub now (lastDisplayMillis g) >= 500 ->
      calls (loop env) g
      = map oled (match currentMode g with
                  | SUMMARY => showSummary (latestData g) (alarmOn g)
                  | DETAIL => showDetail (latestData g)
                  end))
  /\ (usub now (lastDisplayMillis g) < 500 ->
      forall c, ~ In (oled c) (calls (loop env) g)).
Proof.
  intros now data alarm.
  assert (Ha : alarm = alarm_of data).
  { unfold alarm, exec. rewrite updateAlarm_eq. reflexivity. }
  pose proof (calls_loop env g) as Hcalls.
  destruct (handleButton_data env (after_render env (after_sample env g)))
    as (Hd & Hal & _).
  destruct (after_render_data env (after_sample env g)) as (Hd' & Hal' & _).
  rewrite <- exec_loop in Hd, Hal.
  split.
  { intros Hs Hr.
    assert (Es : sample_due env g = true).
    { unfold sample_due. apply Z.geb_le. fold now.
      change READ_INTERVAL_MS with 2000. lia. }
    assert (Er : render_due env g = true).
    { unfold render_due. apply Z.geb_le. fold now.
      change DISPLAY_INTERVAL_MS with 500. lia. }
    rewrite Hd, Hal, Hd', Hal', Hcalls. unfold after_sample.
    rewrite Es, Er, Ha. repeat split. }
  split.
  { intros Hs Hr.
    assert (Es : sample_due env g = false).
    { unfold sample_due. fold now. change READ_INTERVAL_MS with 2000.
      destruct (usub now (lastReadMillis g) >=? 2000) eqn:E; [|reflexivity].
      apply Z.geb_le in E. lia. }
    assert (Er : render_due env g = true).
    { unfold render_due. apply Z.geb_le. fold now.
      change DISPLAY_INTERVAL_MS with 500. lia. }
    rewrite Hcalls. unfold after_sample. rewrite Es, Er. reflexivity. }
  intros Hr c Hin.
  assert (Er : render_due env g = false).
  { unfold render_due. fold now. change DISPLAY_INTERVAL_MS with 500.
    destruct (usub now (lastDisplayMillis g) >=? 500) eqn:E; [|reflexivity].
    apply Z.geb_le in E. lia. }
  rewrite Hcalls, Er, app_nil_r in Hin.
  destruct (sample_due env g); [|exact Hin].
  cbn in Hin. repeat (destruct Hin as [Hin | Hin]; [discriminate|]). exact Hin.
Qed.

Lemma sample_precedes_render_witness :
  calls (loop (example_pass 2000)) initial_globals
  = sample_calls example_reading false
    ++ map oled (showSummary example_reading false)
  /\ latestData (exec (loop (example_pass 2000)) initial_globals)
     = example_reading
  /\ alarmOn (exec (loop (example_pass 2000)) initial_globals) = false.
Proof.
  refine (proj1 (sample_precedes_render (example_pass 2000) initial_globals)
                _ _);
    vm_compute; discriminate.
Defined.

(* ------------------------------------------------------------------ *)
(** ** The two layouts *)

Ltac occurs_at k :=
  match goal with
  | |- occurs ?sub ?l =>
      exists (firstn k l), (skipn (k + List.length sub) l); reflexivity
  end.

Ltac solve_occurs :=
  first [ occurs_at 0%nat | occurs_at 1%nat | occurs_at 2%nat
        | occurs_at 3%nat | occurs_at 4%nat | occurs_at 5%nat
        | occurs_at 6%nat | occurs_at 7%nat | occurs_at 8%nat
        | occurs_at 9%nat | occurs_at 10%nat | occurs_at 11%nat
        | occurs_at 12%nat | occurs_at 13%nat | occurs_at 14%nat ].

Ltac in_cases H :=
  cbn in H; repeat (destruct H as [H | H]; [try discriminate H|]);
  try contradiction.

(** The humidity of [example_reading] is the binary32 number 22.5. *)
Lemma example_humidity_value :
  valid (humidity example_reading) = true
  /\ 2 * units (humidity example_reading) = units_of_Z 45.
Proof. split; reflexivity. Qed.

(** "ERR" is in the Summary frame exactly when a temperature or a
    humidity is absent. *)
Lemma summary_shows_ERR (data : EnvData) (alarm : bool) :
  isnan (temperature data) = true \/ isnan (humidity data) = true ->
  In (println "ERR") (showSummary data alarm).
Proof.
  unfold showSummary.
  destruct (isnan (temperature data)), (isnan (humidity data));
    intros [E | E]; try discriminate E; cbn; tauto.
Qed.

(** C7. The Summary frame of the reading (no temperature, humidity
    22.5, light 1500) with the alarm off reads: title, "Temp: " "ERR",
    "Hum : " 22.5 to one decimal " %", "Light: " 1500 " /4095",
    "Alarm: " "OFF". For every reading, a present temperature or
    humidity is printed to one decimal followed by its unit, an absent
    one as "ERR"; the light is printed raw over 4095 and the alarm as
    ON or OFF; the frame starts by clearing the display and ends by
    committing it. *)
Theorem showSummary_layout (data : EnvData) (alarm : bool) :
  let frame := showSummary data alarm in
  showSummary example_reading false
  = [clearDisplay; setCursor 0 0;
     println "ENV MONITOR - SUMMARY"; println_empty;
     print "Temp: "; println "ERR";
     print "Hum : "; print_float (humidity example_reading) 1; println " %";
     print "Light: "; print_int 1500; println " /4095";
     println_empty;
     print "Alarm: "; println "OFF";
     display]
  /\ 2 * units (humidity example_reading) = units_of_Z 45
  /\ (isnan (temperature data) = false ->
      occurs [print "Temp: "; print_float (temperature data) 1; println " C"]
             frame)
  /\ (isnan (temperature data) = true ->
      occurs [print "Temp: "; println "ERR"; print "Hum : "] frame)
  /\ (isnan (humidity data) = false ->
      occurs [print "Hum : "; print_float (humidity data) 1; println " %"]
             frame)
  /\ (isnan (humidity data) = true ->
      occurs [print "Hum : "; println "ERR"; print "Light: "] frame)
  /\ occurs [print "Light: "; print_int (lightRaw data); println " /4095"]
            frame
  /\ occurs [print "Alarm: "; println (if alarm then "ON" else "OFF"); display]
            frame
  /\ (forall x digits, In (print_float x digits) frame ->
        digits = 1 /\ isnan x = false
        /\ (x = temperature data \/ x = humidity data))
  /\ (In (println "ERR") frame <->
      isnan (temperature data) = true \/ isnan (humidity data) = true)
  /\ hd_error frame = Some clearDisplay
  /\ last frame clearDisplay = display.
Proof.
  intros frame. subst frame. unfold showSummary.
  split; [reflexivity|].
  split; [reflexivity|].
  destruct alarm,
    (isnan (temperature data)) eqn:Et, (isnan (humidity data)) eqn:Eh;
    cbn [app];
    (split; [intros E; try discriminate E; solve_occurs|]);
    (split; [intros E; try discriminate E; solve_occurs|]);
    (split; [intros E; try discriminate E; solve_occurs|]);
    (split; [intros E; try discriminate E; solve_occurs|]);
    (split; [solve_occurs|]);
    (split; [solve_occurs|]);
    (split; [intros x digits H; in_cases H;
             injection H as <- <-; auto |]);
    (split; [split; [intros H; in_cases H; auto
                    | intros [E | E]; try discriminate E; cbn; tauto] |]);
    split; reflexivity.
Qed.

Lemma showSummary_layout_witness :
  occurs [print "Hum : "; print_float (humidity example_reading) 1;
          println " %"]
         (showSummary example_reading false).
Proof.
  refine (proj1 (proj2 (proj2 (proj2 (proj2
            (showSummary_layout example_reading false))))) _).
  reflexivity.
Defined.

(** The Detail frame, whatever the reading: the conditional expressions
    that replace a NaN by [NAN] change nothing. *)
Lemma showDetail_eq (data : EnvData) :
  showDetail data
  = [clearDisplay; setCursor 0 0;
     println "ENV MONITOR - DETAIL"; println_empty;
     println "Raw readings:";
     print "T: "; println_float (temperature data) 2;
     print "H: "; println_float (humidity data) 2;
     print "L: "; println_int (lightRaw data);
     println_empty;
     println "Press button"; println "to switch mode.";
     display].
Proof.
  unfold showDetail.
  destruct (temperature data) as [s | s | | s m e],
           (humidity data) as [s' | s' | | s' m' e']; reflexivity.
Qed.

(** C8. The Detail frame prints temperature and humidity to two
    decimals, an absent one as the NaN itself and never as "ERR"; it
    prints the raw light integer and ends with the two static lines
    "Press button" / "to switch mode.". For the example reading (no
    temperature) the temperature line is the NaN to two decimals, where
    the Summary frame of the same reading has "ERR". *)
Theorem showDetail_layout (data : EnvData) (alarm : bool) :
  let frame := showDetail data in
  showDetail example_reading
  = [clearDisplay; setCursor 0 0;
     println "ENV MONITOR - DETAIL"; println_empty;
     println "Raw readings:";
     print "T: "; println_float NAN 2;
     print "H: "; println_float (humidity example_reading) 2;
     print "L: "; println_int 1500;
     println_empty;
     println "Press button"; println "to switch mode.";
     display]
  /\ occurs [print "T: "; println_float (temperature data) 2;
             print "H: "; println_float (humidity data) 2;
             print "L: "; println_int (lightRaw data)] frame
  /\ (isnan (temperature data) = true ->
      occurs [print "T: "; println_float NAN 2] frame)
  /\ (isnan (humidity data) = true ->
      occurs [print "H: "; println_float NAN 2] frame)
  /\ (forall x digits, In (println_float x digits) frame -> digits = 2)
  /\ ~ In (println "ERR") frame
  /\ ~ In (print "ERR") frame
  /\ occurs [println "Press button"; println "to switch mode."; display] frame
  /\ (isnan (temperature data) = true ->
      In (println "ERR") (showSummary data alarm))
  /\ hd_error frame = Some clearDisplay.
Proof.
  intros frame. subst frame. rewrite (showDetail_eq data).
  split; [reflexivity|].
  split; [solve_occurs|].
  split.
  { intros E. destruct (temperature data); try discriminate E. solve_occurs. }
  split.
  { intros E. destruct (humidity data); try discriminate E. solve_occurs. }
  split.
  { intros x digits H. in_cases H; injection H as _ <-; reflexivity. }
  split.
  { intros H. in_cases H. }
  split.
  { intros H. in_cases H. }
  split; [solve_occurs|].
  split; [|reflexivity].
  intros E. apply (summary_shows_ERR data alarm). left. exact E.
Qed.

Lemma showDetail_layout_witness :
  occurs [print "T: "; println_float NAN 2] (showDetail example_reading).
Proof.
  refine (proj1 (proj2 (proj2 (showDetail_layout example_reading false))) _).
  reflexivity.
Defined.

(* ------------------------------------------------------------------ *)
(** ** Runs of the scheduler *)

Lemma result_exec_calls {A} (c : Firmware A) (g : Globals)
      (a : A) (g' : Globals) (o : list Output) :
  c g = (a, g', o) -> exec c g = g' /\ calls c g = o.
Proof. intros H. unfold exec, calls. rewrite H. split; reflexivity. Qed.

Lemma exec_calls_result (c : Firmware unit) (g g' : Globals)
      (o : list Output) :
  exec c g = g' -> calls c g = o -> c g = (tt, g', o).
Proof.
  unfold exec, calls. destruct (c g) as [[[] g1] o1]. cbn [fst snd].
  intros -> ->. reflexivity.
Qed.

Lemma exec_run_app (a b : list PassInput) (g : Globals) :
  exec (run (a ++ b)) g = exec (run b) (exec (run a) g).
Proof.
  revert g. induction a as [|env a IH]; intros g.
  - reflexivity.
  - cbn [app]. rewrite !exec_run_cons. apply IH.
Qed.

Lemma calls_run_app (a b : list PassInput) (g : Globals) :
  calls (run (a ++ b)) g
  = calls (run a) g ++ calls (run b) (exec (run a) g).
Proof.
  revert g. induction a as [|env a IH]; intros g.
  - reflexivity.
  - cbn [app]. rewrite !calls_run_cons, exec_run_cons, IH.
    apply app_assoc.
Qed.

Lemma exec_run_one (env : PassInput) (g : Globals) :
  exec (run [env]) g = exec (loop env) g.
Proof. rewrite exec_run_cons. reflexivity. Qed.

Lemma calls_run_one (env : PassInput) (g : Globals) :
  calls (run [env]) g = calls (loop env) g.
Proof. rewrite calls_run_cons. apply app_nil_r. Qed.

Lemma count_app (p : Output -> bool) (a b : list Output) :
  count p (a ++ b) = (count p a + count p b)%nat.
Proof. unfold count. rewrite filter_app. apply length_app. Qed.

(** Every frame holds exactly one commit, and nothing that marks a
    sampling cycle. *)
Lemma count_frame (mode : DisplayMode) (data : EnvData) (alarm : bool) :
  count is_commit (map oled (render mode data alarm)) = 1%nat
  /\ count is_evaluation (map oled (render mode data alarm)) = 0%nat
  /\ count is_log_record (map oled (render mode data alarm)) = 0%nat.
Proof.
  destruct mode; cbn [render].
  - unfold showSummary.
    destruct (isnan (temperature data)), (isnan (humidity data));
      repeat split.
  - rewrite showDetail_eq. repeat split.
Qed.

(** A sampling cycle evaluates the alarm once and logs one record. *)
Lemma count_sample_calls (data : EnvData) (alarm : bool) :
  count is_commit (sample_calls data alarm) = 0%nat
  /\ count is_evaluation (sample_calls data alarm) = 1%nat
  /\ count is_log_record (sample_calls data alarm) = 1%nat.
Proof. repeat split. Qed.

Section QuietRun.

Variables (temp hum : Z -> float) (light : Z -> Z).

(** Times 0 to 1999: three frames of the initial reading, no sample. *)
Lemma quiet_run_before_2000 :
  run (map (idle_pass temp hum light) (every_ms 1999)) initial_globals
  = (tt, mkGlobals SUMMARY false 0 1500 zero_data 0 LOW,
     zero_frame ++ zero_frame ++ zero_frame).
Proof. vm_compute. reflexivity. Qed.

(** Time 2000: the sample, then the frame of what was sampled. *)
Lemma quiet_run_at_2000 :
  loop (idle_pass temp hum light 2000)
       (mkGlobals SUMMARY false 0 1500 zero_data 0 LOW)
  = (tt,
     mkGlobals SUMMARY (alarm_of (sampled_at temp hum light 2000)) 2000 2000
               (sampled_at temp hum light 2000) 0 LOW,
     sample_calls (sampled_at temp hum light 2000)
                  (alarm_of (sampled_at temp hum light 2000))
     ++ map oled (showSummary (sampled_at temp hum light 2000)
                              (alarm_of (sampled_at temp hum light 2000)))).
Proof. rewrite loop_eq. reflexivity. Qed.

(** Times 2001 to 2100: nothing is due. *)
Lemma quiet_run_after_2000 :
  run (map (idle_pass temp hum light) (map Z.of_nat (seq 2001 100)))
      (mkGlobals SUMMARY (alarm_of (sampled_at temp hum light 2000)) 2000 2000
                 (sampled_at temp hum light 2000) 0 LOW)
  = (tt,
     mkGlobals SUMMARY (alarm_of (sampled_at temp hum light 2000)) 2000 2000
               (sampled_at temp hum light 2000) 0 LOW,
     []).
Proof. vm_compute. reflexivity. Qed.

Lemma quiet_passes_split :
  map (idle_pass temp hum light) (every_ms 2100)
  = map (idle_pass temp hum light) (every_ms 1999)
    ++ [idle_pass temp hum light 2000]
    ++ map (idle_pass temp hum light) (map Z.of_nat (seq 2001 100)).
Proof. vm_compute. reflexivity. Qed.

Lemma quiet_run_2100 :
  run (map (idle_pass temp hum light) (every_ms 2100)) initial_globals
  = (tt,
     mkGlobals SUMMARY (alarm_of (sampled_at temp hum light 2000)) 2000 2000
               (sampled_at temp hum light 2000) 0 LOW,
     zero_frame ++ zero_frame ++ zero_frame
     ++ sample_calls (sampled_at temp hum light 2000)
                     (alarm_of (sampled_at temp hum light 2000))
     ++ map oled (showSummary (sampled_at temp hum light 2000)
                              (alarm_of (sampled_at temp hum light 2000)))).
Proof.
  destruct (result_exec_calls _ _ _ _ _ quiet_run_before_2000) as [Ea Ca].
  destruct (result_exec_calls _ _ _ _ _ quiet_run_at_2000) as [Eb Cb].
  destruct (result_exec_calls _ _ _ _ _ quiet_run_after_2000) as [Ec Cc].
  apply exec_calls_result.
  - rewrite quiet_passes_split, !exec_run_app, exec_run_one, Ea, Eb, Ec.
    reflexivity.
  - rewrite quiet_passes_split, !calls_run_app, calls_run_one, exec_run_one.
    rewrite Ea, Ca, Eb, Cb, Cc, app_nil_r, <- !app_assoc. reflexivity.
Qed.

End QuietRun.

(** C6. From the initial globals, with a pass at every millisecond from
    0 to 2100 and the button at rest, the calls are: three frames of
    the initial reading (at 500, 1000 and 1500; they are all there is
    up to 1999), then one sampling cycle (at 2000) and, right after it
    in the same pass, the frame of the reading just sampled with the
    alarm just evaluated from it. That is one alarm evaluation, one log
    record and four frames. *)
Theorem first_2100_ms (temp hum : Z -> float) (light : Z -> Z) :
  let passes := map (idle_pass temp hum light) (every_ms 2100) in
  let out := calls (run passes) initial_globals in
  let sampled := sampled_at temp hum light 2000 in
  out = zero_frame ++ zero_frame ++ zero_frame
        ++ sample_calls sampled (alarm_of sampled)
        ++ map oled (showSummary sampled (alarm_of sampled))
  /\ count is_evaluation out = 1%nat
  /\ count is_log_record out = 1%nat
  /\ count is_commit out = 4%nat
  /\ latestData (exec (run passes) initial_globals) = sampled
  /\ alarmOn (exec (run passes) initial_globals) = alarm_of sampled
  /\ calls (run (map (idle_pass temp hum light) (every_ms 1999)))
           initial_globals
     = zero_frame ++ zero_frame ++ zero_frame.
Proof.
  intros passes out sampled.
  destruct (result_exec_calls _ _ _ _ _ (quiet_run_2100 temp hum light))
    as [Hexec Hout].
  destruct (result_exec_calls _ _ _ _ _ (quiet_run_before_2000 temp hum light))
    as [_ Hpre].
  fold passes sampled in Hexec, Hout. fold out in Hout.
  destruct (count_frame SUMMARY zero_data false) as (Z1 & Z2 & Z3).
  destruct (count_frame SUMMARY sampled (alarm_of sampled)) as (F1 & F2 & F3).
  destruct (count_sample_calls sampled (alarm_of sampled)) as (S1 & S2 & S3).
  cbn [render] in Z1, Z2, Z3, F1, F2, F3. fold zero_frame in Z1, Z2, Z3.
  split; [exact Hout|].
  rewrite Hout, !count_app, Z1, Z2, Z3, F1, F2, F3, S1, S2, S3, Hexec.
  do 5 (split; [reflexivity|]).
  exact Hpre.
Qed.

(* ------------------------------------------------------------------ *)
(** ** Before the first sample *)

Lemma sample_not_due (env : PassInput) (g : Globals) :
  lastReadMillis g = 0 -> 0 <= millis_loop env < 2000 ->
  sample_due env g = false.
Proof.
  intros H0 Hnow. unfold sample_due, usub, wrap. rewrite H0, Z.sub_0_r.
  rewrite Z.mod_small by (unfold modulus, width; lia).
  change READ_INTERVAL_MS with 2000.
  destruct (millis_loop env >=? 2000) eqn:E; [|reflexivity].
  apply Z.geb_le in E. lia.
Qed.

Lemma unsampled_loop (env : PassInput) (g : Globals) :
  unsampled g -> 0 <= millis_loop env < 2000 ->
  unsampled (exec (loop env) g)
  /\ (calls (loop env) g = []
      \/ calls (loop env) g
         = map oled (render (currentMode g) zero_data false)).
Proof.
  intros (Hd & Ha & Hr) Hnow.
  pose proof (sample_not_due env g Hr Hnow) as Hs.
  assert (Hg : after_sample env g = g) by (unfold after_sample; rewrite Hs; reflexivity).
  split.
  - destruct (handleButton_data env (after_render env (after_sample env g)))
      as (Hd1 & Ha1 & Hr1 & _).
    destruct (after_render_data env (after_sample env g)) as (Hd2 & Ha2 & Hr2).
    rewrite <- exec_loop in Hd1, Ha1, Hr1.
    rewrite Hg in Hd1, Ha1, Hr1, Hd2, Ha2, Hr2.
    unfold unsampled. rewrite Hd1, Ha1, Hr1, Hd2, Ha2, Hr2. repeat split; assumption.
  - rewrite calls_loop, Hs, Hg, Hd, Ha. cbn [app].
    destruct (render_due env g); [right | left]; reflexivity.
Qed.

Lemma unsampled_run (envs : list PassInput) (g : Globals) :
  unsampled g ->
  Forall (fun e => 0 <= millis_loop e < 2000) envs ->
  unsampled (exec (run envs) g)
  /\ exists modes : list DisplayMode,
       calls (run envs) g
       = List.concat (map (fun m => map oled (render m zero_data false)) modes).
Proof.
  revert g. induction envs as [|env rest IH]; intros g Hu Hall.
  - split; [exact Hu | exists []; reflexivity].
  - inversion Hall as [|e l He Hrest]; subst.
    destruct (unsampled_loop env g Hu He) as [Hu1 Hc].
    destruct (IH _ Hu1 Hrest) as [Hu2 [modes Hm]].
    rewrite exec_run_cons, calls_run_cons. split; [exact Hu2|].
    destruct Hc as [Hc | Hc]; rewrite Hc, Hm.
    + exists modes. reflexivity.
    + exists (currentMode g :: modes). reflexivity.
Qed.

Lemma frame_has_no_pin_write (mode : DisplayMode) (data : EnvData)
      (alarm : bool) (o : Output) :
  In o (map oled (render mode data alarm)) -> exists c, o = oled c.
Proof.
  intros H. apply in_map_iff in H. destruct H as (c & <- & _).
  exists c. reflexivity.
Qed.

(** C9. As long as every pass reads a clock value below 2000, nothing
    is sampled: the latest reading stays the zero-initialised one
    (temperature 0.0 and humidity 0.0, both present, light 0), the
    alarm flag stays false, every frame drawn is a frame of that
    reading with the alarm off, and the buzzer pin, which [setup]
    drove LOW, is not written at all; this although the threshold
    evaluation of the zero reading would raise the alarm. *)
Theorem before_first_sample (driver_ok : bool) (envs : list PassInput) :
  Forall (fun e => 0 <= millis_loop e < 2000) envs ->
  let g0 := exec (setup driver_ok) initial_globals in
  let g := exec (run envs) g0 in
  let out := calls (run envs) g0 in
  latestData g = mkEnvData (S754_zero false) (S754_zero false) 0
  /\ isnan (temperature (latestData g)) = false
  /\ isnan (humidity (latestData g)) = false
  /\ alarmOn g = false
  /\ (exists modes : list DisplayMode,
        out = List.concat (map (fun m => map oled (render m (latestData g) false))
                          modes))
  /\ (forall pin level, ~ In (digitalWrite pin level) out)
  /\ count is_evaluation out = 0%nat
  /\ (forall level,
        In (digitalWrite BUZZER_PIN level) (calls (setup driver_ok) initial_globals)
        <-> level = LOW)
  /\ alarmOn (exec (updateAlarm (latestData g)) g) = true.
Proof.
  intros Hall g0 g out.
  assert (Hu0 : unsampled g0).
  { unfold g0. rewrite exec_setup. repeat split. }
  destruct (unsampled_run envs g0 Hu0 Hall) as [(Hd & Ha & _) [modes Hm]].
  fold g in Hd, Ha. fold out in Hm.
  assert (Hnone : forall o, In o out -> exists c, o = oled c).
  { intros o Ho. rewrite Hm in Ho. apply in_concat in Ho.
    destruct Ho as (l & Hl & Hin). apply in_map_iff in Hl.
    destruct Hl as (m & <- & _). eapply frame_has_no_pin_write. exact Hin. }
  rewrite Hd. split; [reflexivity|]. split; [reflexivity|]. split; [reflexivity|].
  split; [exact Ha|].
  split; [exists modes; exact Hm|].
  split.
  { intros pin level Hin. destruct (Hnone _ Hin) as [c Hc]. discriminate Hc. }
  split.
  { unfold count. apply length_zero_iff_nil.
    destruct (filter is_evaluation out) as [|o l] eqn:E; [reflexivity|].
    assert (Ho : In o (filter is_evaluation out)) by (rewrite E; left; reflexivity).
    apply filter_In in Ho. destruct Ho as [Ho Hp].
    destruct (Hnone _ Ho) as [c ->]. discriminate Hp. }
  split.
  { intros level. destruct driver_ok; cbn; split.
    - intros H. in_cases H. injection H as <-. reflexivity.
    - intros ->. tauto.
    - intros H. in_cases H. injection H as <-. reflexivity.
    - intros ->. tauto. }
  reflexivity.
Qed.

Lemma before_first_sample_witness :
  alarmOn (exec (run [example_pass 400; example_pass 500; example_pass 1999])
                (exec (setup true) initial_globals)) = false.
Proof.
  refine (proj1 (proj2 (proj2 (proj2
            (before_first_sample true
               [example_pass 400; example_pass 500; example_pass 1999] _)))));
  repeat (apply Forall_cons;
          [unfold example_pass; cbn [millis_loop]; lia|]);
  apply Forall_nil.
Defined.

(* ------------------------------------------------------------------ *)
(** ** The 32-bit clock *)

Lemma usub_shift (a b k : Z) :
  usub (wrap (a + k)) (wrap (b + k)) = usub a b.
Proof.
  unfold usub, wrap. rewrite <- Zminus_mod. f_equal. lia.
Qed.

Lemma sample_due_shift (k : Z) (env : PassInput) (g : Globals) :
  sample_due (shift_pass k env) (shift_globals k g) = sample_due env g.
Proof. unfold sample_due. cbn [shift_pass shift_globals millis_loop lastReadMillis].
  rewrite usub_shift. reflexivity. Qed.

Lemma render_due_shift (k : Z) (env : PassInput) (g : Globals) :
  render_due (shift_pass k env) (shift_globals k g) = render_due env g.
Proof. unfold render_due. cbn [shift_pass shift_globals millis_loop lastDisplayMillis].
  rewrite usub_shift. reflexivity. Qed.

Lemma accepted_shift (k : Z) (env : PassInput) (g : Globals) :
  accepted (shift_pass k env) (shift_globals k g) = accepted env g.
Proof.
  unfold accepted.
  cbn [shift_pass shift_globals millis_button button_level
       lastButtonChange lastButtonState].
  rewrite usub_shift. reflexivity.
Qed.

Lemma after_sample_shift (k : Z) (env : PassInput) (g : Globals) :
  after_sample (shift_pass k env) (shift_globals k g)
  = shift_globals k (after_sample env g).
Proof.
  unfold after_sample. rewrite sample_due_shift.
  destruct (sample_due env g); reflexivity.
Qed.

Lemma after_render_shift (k : Z) (env : PassInput) (g : Globals) :
  after_render (shift_pass k env) (shift_globals k g)
  = shift_globals k (after_render env g).
Proof.
  unfold after_render. rewrite render_due_shift.
  destruct (render_due env g); reflexivity.
Qed.

Lemma handleButton_shift (k : Z) (env : PassInput) (g : Globals) :
  exec (handleButton (shift_pass k env)) (shift_globals k g)
  = shift_globals k (exec (handleButton env) g).
Proof.
  rewrite !exec_handleButton, accepted_shift.
  destruct (accepted env g); [|reflexivity].
  cbn [shift_pass button_level]. destruct (button_level env =? HIGH); reflexivity.
Qed.

(** A pass does the same whatever the origin of the clock: with every
    clock reading and every stored time moved by [k], wrapping at 2^32,
    it makes the same calls and leaves the same globals, moved by [k]. *)
Lemma loop_shift (k : Z) (env : PassInput) (g : Globals) :
  loop (shift_pass k env) (shift_globals k g)
  = (tt, shift_globals k (exec (loop env) g), calls (loop env) g).
Proof.
  apply exec_calls_result.
  - rewrite !exec_loop, after_sample_shift, after_render_shift.
    apply handleButton_shift.
  - rewrite !calls_loop, sample_due_shift, render_due_shift, after_sample_shift.
    reflexivity.
Qed.

Lemma run_shift (k : Z) (envs : list PassInput) (g : Globals) :
  run (map (shift_pass k) envs) (shift_globals k g)
  = (tt, shift_globals k (exec (run envs) g), calls (run envs) g).
Proof.
  revert g. induction envs as [|env rest IH]; intros g.
  - reflexivity.
  - destruct (result_exec_calls _ _ _ _ _ (loop_shift k env g)) as [He Hc].
    destruct (result_exec_calls _ _ _ _ _ (IH (exec (loop env) g))) as [He' Hc'].
    apply exec_calls_result; cbn [map].
    + rewrite !exec_run_cons, He, He'. reflexivity.
    + rewrite !calls_run_cons, Hc, He, Hc'. reflexivity.
Qed.

Lemma render_commits (mode : DisplayMode) (data : EnvData) (alarm : bool) :
  In display (render mode data alarm).
Proof.
  destruct mode; cbn [render].
  - unfold showSummary. rewrite !in_app_iff. cbn. tauto.
  - rewrite showDetail_eq. cbn. tauto.
Qed.

(** The log record of a sample is in the calls of a pass exactly when
    the sample was due, and the commit of a frame exactly when the
    rendering was due. *)
Lemma sampled_iff_due (env : PassInput) (g : Globals) :
  In (Serial_print "T=") (calls (loop env) g) <-> sample_due env g = true.
Proof.
  rewrite calls_loop, in_app_iff. split.
  - intros [H | H].
    + destruct (sample_due env g); [reflexivity | destruct H].
    + destruct (render_due env g); [|destruct H].
      apply in_map_iff in H. destruct H as (c & Hc & _). discriminate Hc.
  - intros ->. left. cbn. tauto.
Qed.

Lemma rendered_iff_due (env : PassInput) (g : Globals) :
  In (oled display) (calls (loop env) g) <-> render_due env g = true.
Proof.
  rewrite calls_loop, in_app_iff. split.
  - intros [H | H].
    + destruct (sample_due env g); [|destruct H]. in_cases H.
    + destruct (render_due env g); [reflexivity | destruct H].
  - intros ->. right. apply in_map. apply render_commits.
Qed.

(** C10. The three gates subtract on 32 bits. Whenever a stored time and
    a clock reading are the wrapped values of true times less than 2^32
    apart, the difference the gate computes is the true elapsed time,
    also across a wrap of the clock: the pass samples exactly when at
    least 2000 ms have truly elapsed, renders exactly when at least 500
    have, and accepts a differing button level exactly when more than
    200 have. Moreover a whole run makes the same calls and leaves the
    same globals when every clock reading and stored time is moved by
    any amount on the wrapping clock. *)
Theorem elapsed_time_survives_wrap
        (env : PassInput) (g : Globals)
        (t_read t_display t_change t_loop t_button : Z) :
  lastReadMillis g = wrap t_read ->
  lastDisplayMillis g = wrap t_display ->
  lastButtonChange g = wrap t_change ->
  millis_loop env = wrap t_loop ->
  millis_button env = wrap t_button ->
  t_read <= t_loop -> t_loop - t_read < 2 ^ 32 ->
  t_display <= t_loop -> t_loop - t_display < 2 ^ 32 ->
  t_change <= t_button -> t_button - t_change < 2 ^ 32 ->
  usub (millis_loop env) (lastReadMillis g) = t_loop - t_read
  /\ usub (millis_loop env) (lastDisplayMillis g) = t_loop - t_display
  /\ usub (millis_button env) (lastButtonChange g) = t_button - t_change
  /\ (In (Serial_print "T=") (calls (loop env) g) <-> 2000 <= t_loop - t_read)
  /\ (In (oled display) (calls (loop env) g) <-> 500 <= t_loop - t_display)
  /\ (button_level env <> lastButtonState g ->
      (lastButtonState (exec (loop env) g) = button_level env
       <-> 200 < t_button - t_change))
  /\ (forall (k : Z) (envs : list PassInput) (g0 : Globals),
        run (map (shift_pass k) envs) (shift_globals k g0)
        = (tt, shift_globals k (exec (run envs) g0), calls (run envs) g0)).
Proof.
  intros Hr Hd Hc Hl Hb Hrl Hrl' Hdl Hdl' Hcb Hcb'.
  change (2 ^ 32) with modulus in *.
  assert (Er : usub (millis_loop env) (lastReadMillis g) = t_loop - t_read).
  { rewrite Hr, Hl. apply usub_true_elapsed; assumption. }
  assert (Ed : usub (millis_loop env) (lastDisplayMillis g) = t_loop - t_display).
  { rewrite Hd, Hl. apply usub_true_elapsed; assumption. }
  assert (Ec : usub (millis_button env) (lastButtonChange g) = t_button - t_change).
  { rewrite Hc, Hb. apply usub_true_elapsed; assumption. }
  split; [exact Er|]. split; [exact Ed|]. split; [exact Ec|].
  split.
  { rewrite sampled_iff_due. unfold sample_due. rewrite Er.
    change READ_INTERVAL_MS with 2000. rewrite Z.geb_le. reflexivity. }
  split.
  { rewrite rendered_iff_due. unfold render_due. rewrite Ed.
    change DISPLAY_INTERVAL_MS with 500. rewrite Z.geb_le. reflexivity. }
  split.
  { intros Hdiff.
    destruct (loop_button_fields env g) as (_ & Hs & _). rewrite Hs.
    rewrite exec_handleButton.
    destruct (accepted env g) eqn:Ea.
    - apply accepted_true_iff in Ea. change BUTTON_DEBOUNCE_MS with 200 in Ea.
      rewrite Ec in Ea.
      destruct (button_level env =? HIGH); cbn [lastButtonState set_currentMode
        set_lastButtonState]; split; intros _; (reflexivity || lia).
    - split.
      + intros E. elim Hdiff. symmetry. exact E.
      + intros Hgt. exfalso.
        assert (Ht : accepted env g = true).
        { apply accepted_true_iff. change BUTTON_DEBOUNCE_MS with 200.
          rewrite Ec. split; [exact Hdiff | lia]. }
        rewrite Ht in Ea. discriminate Ea. }
  intros k envs g0. apply run_shift.
Qed.

Lemma elapsed_time_survives_wrap_witness :
  usub 1600 4294966796 = 2100
  /\ In (Serial_print "T=")
        (calls (loop (pressed_pass 1600)) (globals_at 4294966796))
  /\ lastButtonState (exec (loop (pressed_pass 1600)) (globals_at 4294966796))
     = HIGH.
Proof.
  destruct (elapsed_time_survives_wrap
              (pressed_pass 1600) (globals_at 4294966796)
              (2 ^ 32 - 500) (2 ^ 32 - 500) (2 ^ 32 - 500)
              (2 ^ 32 + 1600) (2 ^ 32 + 1600))
    as (H1 & _ & _ & H4 & _ & H6 & _);
    try reflexivity; try (vm_compute; discriminate).
  split; [exact H1|]. split.
  - apply H4. vm_compute. discriminate.
  - apply H6; [discriminate | reflexivity].
Defined.

(* ================================================================== *)
(** * Further properties of the sketch *)

(* ------------------------------------------------------------------ *)
(** ** What a pass leaves in the globals and in the call log *)

Lemma render_due_after_sample (env : PassInput) (g : Globals) :
  render_due env (after_sample env g) = render_due env g.
Proof.
  unfold render_due, after_sample. destruct (sample_due env g); reflexivity.
Qed.

(** The sampling side of the globals after a pass. *)
Lemma loop_fields (env : PassInput) (g : Globals) :
  alarmOn (exec (loop env) g)
  = (if sample_due env g then alarm_of (EnvSensor_read env) else alarmOn g)
  /\ latestData (exec (loop env) g)
     = (if sample_due env g then EnvSensor_read env else latestData g)
  /\ lastReadMillis (exec (loop env) g)
     = (if sample_due env g then millis_loop env else lastReadMillis g)
  /\ lastDisplayMillis (exec (loop env) g)
     = (if render_due env g then millis_loop env else lastDisplayMillis g).
Proof.
  destruct (handleButton_data env (after_render env (after_sample env g)))
    as (Hd & Ha & Hr & Hl).
  rewrite <- exec_loop in Hd, Ha, Hr, Hl. rewrite Hd, Ha, Hr, Hl.
  unfold after_render. rewrite render_due_after_sample.
  unfold after_sample.
  destruct (sample_due env g), (render_due env g); repeat split.
Qed.

Lemma last_write_app (pin : Z) (a b : list Output) :
  last_write pin (a ++ b)
  = match last_write pin b with
    | Some level => Some level
    | None => last_write pin a
    end.
Proof.
  induction a as [|o a IH]; cbn [app last_write].
  - destruct (last_write pin b); reflexivity.
  - rewrite IH. destruct (last_write pin b); reflexivity.
Qed.

Lemma last_write_oled (pin : Z) (cmds : list DrawCmd) :
  last_write pin (map oled cmds) = None.
Proof.
  induction cmds as [|c cmds IH]; cbn [map last_write];
    [|rewrite IH]; reflexivity.
Qed.

(** The buzzer write of a pass: the evaluated alarm when the pass
    samples, none otherwise. *)
Lemma last_write_loop (env : PassInput) (g : Globals) :
  last_write BUZZER_PIN (calls (loop env) g)
  = if sample_due env g
    then Some (if alarm_of (EnvSensor_read env) then HIGH else LOW)
    else None.
Proof.
  rewrite calls_loop, last_write_app.
  assert (Hr : last_write BUZZER_PIN
                 (if render_due env g
                  then map oled (render (currentMode g)
                                        (latestData (after_sample env g))
                                        (alarmOn (after_sample env g)))
                  else []) = None).
  { destruct (render_due env g); [apply last_write_oled | reflexivity]. }
  rewrite Hr. destruct (sample_due env g); reflexivity.
Qed.

(** The only pin a pass writes is the buzzer, with a pin level. *)
Lemma loop_writes_buzzer_only (env : PassInput) (g : Globals)
      (pin level : Z) :
  In (digitalWrite pin level) (calls (loop env) g) ->
  pin = BUZZER_PIN /\ is_level level.
Proof.
  rewrite calls_loop, in_app_iff. intros [H | H].
  - destruct (sample_due env g); [|destruct H].
    unfold sample_calls in H. destruct H as [H | H]; [|in_cases H].
    injection H as <- <-. split; [reflexivity|].
    destruct (alarm_of (EnvSensor_read env)); [right | left]; reflexivity.
  - destruct (render_due env g); [|destruct H].
    apply in_map_iff in H. destruct H as (c & Hc & _). discriminate Hc.
Qed.

(* ------------------------------------------------------------------ *)
(** ** Start-up *)

(** X1. A display that fails to initialise is not fatal. Whatever the
    driver reports, [setup] leaves the globals as initialised and the
    buzzer driven LOW; it logs "OLED init failed!" exactly when the
    driver failed and "System init OK." exactly when it succeeded, and
    draws on the display only in the latter case. Every later pass
    behaves the same in both cases. *)
Theorem setup_display_failure_not_fatal
        (driver_ok : bool) (envs : list PassInput) :
  exec (setup driver_ok) initial_globals = initial_globals
  /\ (In (Serial_println "OLED init failed!")
         (calls (setup driver_ok) initial_globals) <-> driver_ok = false)
  /\ (In (Serial_println "System init OK.")
         (calls (setup driver_ok) initial_globals) <-> driver_ok = true)
  /\ (In (oled display) (calls (setup driver_ok) initial_globals)
      <-> driver_ok = true)
  /\ last_write BUZZER_PIN (calls (setup driver_ok) initial_globals) = Some LOW
  /\ run envs (exec (setup driver_ok) initial_globals)
     = run envs (exec (setup (negb driver_ok)) initial_globals).
Proof.
  split; [apply exec_setup|].
  split.
  { destruct driver_ok; cbn; split; intros H;
      solve [discriminate H | reflexivity | in_cases H | tauto]. }
  split.
  { destruct driver_ok; cbn; split; intros H;
      solve [discriminate H | reflexivity | in_cases H | tauto]. }
  split.
  { destruct driver_ok; cbn; split; intros H;
      solve [discriminate H | reflexivity | in_cases H | tauto]. }
  split.
  { destruct driver_ok; reflexivity. }
  rewrite !exec_setup. reflexivity.
Qed.

(* ------------------------------------------------------------------ *)
(** ** The alarm flag and the buzzer pin *)

Lemma last_write_run (envs : list PassInput) (g : Globals) :
  last_write BUZZER_PIN (calls (run envs) g)
  = Some (if alarmOn (exec (run envs) g) then HIGH else LOW)
  \/ (last_write BUZZER_PIN (calls (run envs) g) = None
      /\ alarmOn (exec (run envs) g) = alarmOn g).
Proof.
  revert g. induction envs as [|env rest IH]; intros g.
  - right. split; reflexivity.
  - rewrite calls_run_cons, exec_run_cons, last_write_app.
    destruct (IH (exec (loop env) g)) as [Hs | [Hn Ha]].
    + left. rewrite Hs. reflexivity.
    + rewrite Hn, Ha, last_write_loop.
      destruct (loop_fields env g) as (Hal & _). rewrite Hal.
      destruct (sample_due env g); [left | right; split]; reflexivity.
Qed.

(** X2. From power-up on, the level last written to the buzzer pin is
    the alarm flag: HIGH when [alarmOn] is true and LOW when it is
    false, after [setup] and after any number of passes. No pass writes
    another pin, or anything but a pin level. *)
Theorem buzzer_follows_alarm (driver_ok : bool) (envs : list PassInput) :
  let g0 := exec (setup driver_ok) initial_globals in
  last_write BUZZER_PIN
    (calls (setup driver_ok) initial_globals ++ calls (run envs) g0)
  = Some (if alarmOn (exec (run envs) g0) then HIGH else LOW)
  /\ (forall pin level,
        In (digitalWrite pin level) (calls (run envs) g0) ->
        pin = BUZZER_PIN /\ (level = LOW \/ level = HIGH)).
Proof.
  intros g0. split.
  - rewrite last_write_app.
    destruct (last_write_run envs g0) as [Hs | [Hn Ha]].
    + rewrite Hs. reflexivity.
    + rewrite Hn, Ha. unfold g0. rewrite exec_setup.
      destruct driver_ok; reflexivity.
  - generalize g0. clear g0. induction envs as [|env rest IH]; intros g.
    + intros pin level H. destruct H.
    + intros pin level H. rewrite calls_run_cons, in_app_iff in H.
      destruct H as [H | H].
      * exact (loop_writes_buzzer_only env g pin level H).
      * exact (IH _ pin level H).
Qed.

Lemma count_loop (env : PassInput) (g : Globals) :
  count is_log_record (calls (loop env) g)
  = (if sample_due env g then 1 else 0)%nat
  /\ count is_evaluation (calls (loop env) g)
     = (if sample_due env g then 1 else 0)%nat
  /\ count is_commit (calls (loop env) g)
     = (if render_due env g then 1 else 0)%nat.
Proof.
  rewrite calls_loop, !count_app.
  destruct (count_sample_calls (EnvSensor_read env)
                               (alarm_of (EnvSensor_read env)))
    as (S1 & S2 & S3).
  destruct (count_frame (currentMode g) (latestData (after_sample env g))
                        (alarmOn (after_sample env g))) as (F1 & F2 & F3).
  destruct (sample_due env g), (render_due env g);
    rewrite ?S1, ?S2, ?S3, ?F1, ?F2, ?F3; repeat split.
Qed.

(** Over a run: while nothing is logged the reading and the flag stay;
    once a sample is logged, and whenever it held before, the flag is
    the evaluation of the stored reading. *)
Lemma run_alarm_current (envs : list PassInput) (g : Globals) :
  (count is_log_record (calls (run envs) g) = 0%nat ->
   latestData (exec (run envs) g) = latestData g
   /\ alarmOn (exec (run envs) g) = alarmOn g)
  /\ (count is_log_record (calls (run envs) g) <> 0%nat ->
      alarm_current (exec (run envs) g))
  /\ (alarm_current g -> alarm_current (exec (run envs) g)).
Proof.
  revert g. induction envs as [|env rest IH]; intros g.
  - repeat split; [intros H; elim H; reflexivity | tauto].
  - rewrite calls_run_cons, exec_run_cons, count_app.
    destruct (count_loop env g) as (Hc & _). rewrite Hc.
    destruct (loop_fields env g) as (Ha & Hd & _).
    destruct (IH (exec (loop env) g)) as (I0 & I1 & I2).
    destruct (sample_due env g).
    + assert (Hcur : alarm_current (exec (loop env) g)).
      { unfold alarm_current. rewrite Ha, Hd. reflexivity. }
      split; [intros H; discriminate H|].
      split; intros _; exact (I2 Hcur).
    + cbn [Nat.add]. split.
      * intros H0. destruct (I0 H0) as [E1 E2].
        rewrite E1, E2, Ha, Hd. split; reflexivity.
      * split; [exact I1|].
        intros Hcur. apply I2. unfold alarm_current in *.
        rewrite Ha, Hd. exact Hcur.
Qed.

(** X3. After power-up and any number of passes, the alarm flag is the
    threshold evaluation of the stored reading as soon as one sample
    has been logged; as long as none has, the stored reading is the
    zero-initialised one and the flag is false. *)
Theorem alarm_tracks_latest_reading
        (driver_ok : bool) (envs : list PassInput) :
  let g0 := exec (setup driver_ok) initial_globals in
  let g := exec (run envs) g0 in
  let samples := count is_log_record (calls (run envs) g0) in
  (samples = 0%nat -> latestData g = zero_data /\ alarmOn g = false)
  /\ (samples <> 0%nat ->
      alarmOn g
      = alarmOn (exec (updateAlarm (latestData g)) initial_globals)).
Proof.
  intros g0 g samples.
  destruct (run_alarm_current envs g0) as (H0 & H1 & _).
  split.
  - intros Hs. destruct (H0 Hs) as [Hd Ha]. fold g in Hd, Ha.
    rewrite Hd, Ha. unfold g0. rewrite exec_setup. split; reflexivity.
  - intros Hs. exact (H1 Hs).
Qed.

Lemma alarm_tracks_latest_reading_witness :
  alarmOn (exec (run [example_pass 2000; pressed_pass 2100])
                (exec (setup true) initial_globals))
  = alarmOn
      (exec (updateAlarm
               (latestData
                  (exec (run [example_pass 2000; pressed_pass 2100])
                        (exec (setup true) initial_globals))))
            initial_globals).
Proof.
  refine (proj2 (alarm_tracks_latest_reading
                   true [example_pass 2000; pressed_pass 2100]) _).
  vm_compute. discriminate.
Defined.

(* ------------------------------------------------------------------ *)
(** ** Cadence *)

Lemma not_due (elapsed interval : Z) :
  elapsed < interval -> (elapsed >=? interval) = false.
Proof.
  intros H. destruct (elapsed >=? interval) eqn:E; [|reflexivity].
  apply Z.geb_le in E. lia.
Qed.

(** Passes that all come less than 2000 ms after the stored sampling
    time take no sample. *)
Lemma run_no_sample (rest : list PassInput) (g : Globals) :
  Forall (fun e => usub (millis_loop e) (lastReadMillis g) < 2000) rest ->
  lastReadMillis (exec (run rest) g) = lastReadMillis g
  /\ latestData (exec (run rest) g) = latestData g
  /\ alarmOn (exec (run rest) g) = alarmOn g
  /\ count is_log_record (calls (run rest) g) = 0%nat
  /\ count is_evaluation (calls (run rest) g) = 0%nat.
Proof.
  revert g. induction rest as [|env rest IH]; intros g Hall.
  - repeat split.
  - inversion Hall as [|e l He Hrest]; subst.
    assert (Hs : sample_due env g = false) by (apply not_due; exact He).
    destruct (loop_fields env g) as (Ha & Hd & Hr & _).
    destruct (count_loop env g) as (C1 & C2 & _).
    rewrite Hs in Ha, Hd, Hr, C1, C2.
    destruct (IH (exec (loop env) g)) as (I1 & I2 & I3 & I4 & I5).
    { rewrite Hr. exact Hrest. }
    rewrite exec_run_cons, calls_run_cons, !count_app.
    rewrite I1, I2, I3, I4, I5, Ha, Hd, Hr, C1, C2. repeat split.
Qed.

(** Passes that all come less than 500 ms after the stored rendering
    time draw nothing. *)
Lemma run_no_render (rest : list PassInput) (g : Globals) :
  Forall (fun e => usub (millis_loop e) (lastDisplayMillis g) < 500) rest ->
  lastDisplayMillis (exec (run rest) g) = lastDisplayMillis g
  /\ forall c, ~ In (oled c) (calls (run rest) g).
Proof.
  revert g. induction rest as [|env rest IH]; intros g Hall.
  - split; [reflexivity | intros c H; destruct H].
  - inversion Hall as [|e l He Hrest]; subst.
    assert (Hs : render_due env g = false) by (apply not_due; exact He).
    destruct (loop_fields env g) as (_ & _ & _ & Hl). rewrite Hs in Hl.
    destruct (IH (exec (loop env) g)) as (I1 & I2).
    { rewrite Hl. exact Hrest. }
    rewrite exec_run_cons, calls_run_cons, I1, Hl. split; [reflexivity|].
    intros c H. apply in_app_iff in H. destruct H as [H | H].
    + rewrite calls_loop, Hs, app_nil_r in H.
      destruct (sample_due env g); [|exact H]. in_cases H.
    + exact (I2 c H).
Qed.

(** X4. Samples are at least 2000 ms apart on the clock: after a pass
    that sampled, passes whose clock readings come less than 2000 ms
    after that pass's take no sample, log nothing and do not touch the
    buzzer; the stored reading and the alarm flag stay those of that
    sample. *)
Theorem sampling_cadence
        (env : PassInput) (g : Globals) (rest : list PassInput) :
  usub (millis_loop env) (lastReadMillis g) >= 2000 ->
  Forall (fun e => usub (millis_loop e) (millis_loop env) < 2000) rest ->
  let g' := exec (run rest) (exec (loop env) g) in
  let later := calls (run rest) (exec (loop env) g) in
  latestData g' = EnvSensor_read env
  /\ alarmOn g' = alarmOn (exec (updateAlarm (EnvSensor_read env)) g)
  /\ count is_log_record later = 0%nat
  /\ count is_evaluation later = 0%nat
  /\ (forall pin level, ~ In (digitalWrite pin level) later).
Proof.
  intros Hdue Hrest g' later.
  assert (Hs : sample_due env g = true).
  { unfold sample_due. apply Z.geb_le. change READ_INTERVAL_MS with 2000. lia. }
  destruct (loop_fields env g) as (Ha & Hd & Hr & _).
  rewrite Hs in Ha, Hd, Hr.
  destruct (run_no_sample rest (exec (loop env) g)) as (_ & I2 & I3 & I4 & I5).
  { rewrite Hr. exact Hrest. }
  fold g' in I2, I3. fold later in I4, I5.
  rewrite I2, I3, Ha, Hd.
  split; [reflexivity|].
  split; [unfold exec; rewrite updateAlarm_eq; reflexivity|].
  split; [exact I4|]. split; [exact I5|].
  intros pin level Hin.
  assert (Hf : In (digitalWrite pin level) (filter is_evaluation later)).
  { apply filter_In. split; [exact Hin|].
    assert (Hp : forall envs g1,
               In (digitalWrite pin level) (calls (run envs) g1) ->
               pin = BUZZER_PIN).
    { induction envs as [|e envs IH]; intros g1 H; [destruct H|].
      rewrite calls_run_cons, in_app_iff in H. destruct H as [H | H].
      - exact (proj1 (loop_writes_buzzer_only e g1 pin level H)).
      - exact (IH _ H). }
    rewrite (Hp _ _ Hin). reflexivity. }
  unfold count in I5. apply length_zero_iff_nil in I5.
  rewrite I5 in Hf. destruct Hf.
Qed.

Lemma sampling_cadence_witness :
  latestData
    (exec (run [example_pass 2500; pressed_pass 3999])
          (exec (loop (example_pass 2000)) initial_globals))
  = EnvSensor_read (example_pass 2000).
Proof.
  refine (proj1 (sampling_cadence (example_pass 2000) initial_globals
                   [example_pass 2500; pressed_pass 3999] _ _)).
  - vm_compute. discriminate.
  - apply Forall_cons; [reflexivity|].
    apply Forall_cons; [reflexivity | apply Forall_nil].
Defined.

(** X5. Frames are at least 500 ms apart on the clock: after a pass
    that rendered, passes whose clock readings come less than 500 ms
    after that pass's make no call on the display at all. *)
Theorem render_cadence
        (env : PassInput) (g : Globals) (rest : list PassInput) :
  usub (millis_loop env) (lastDisplayMillis g) >= 500 ->
  Forall (fun e => usub (millis_loop e) (millis_loop env) < 500) rest ->
  (forall c, ~ In (oled c) (calls (run rest) (exec (loop env) g)))
  /\ lastDisplayMillis (exec (run rest) (exec (loop env) g)) = millis_loop env.
Proof.
  intros Hdue Hrest.
  assert (Hs : render_due env g = true).
  { unfold render_due. apply Z.geb_le. change DISPLAY_INTERVAL_MS with 500.
    lia. }
  destruct (loop_fields env g) as (_ & _ & _ & Hl). rewrite Hs in Hl.
  destruct (run_no_render rest (exec (loop env) g)) as (I1 & I2).
  { rewrite Hl. exact Hrest. }
  rewrite I1, Hl. split; [exact I2 | reflexivity].
Qed.

Lemma render_cadence_witness :
  lastDisplayMillis
    (exec (run [example_pass 2100; example_pass 2300; pressed_pass 2499])
          (exec (loop (example_pass 2000)) initial_globals))
  = millis_loop (example_pass 2000).
Proof.
  refine (proj2 (render_cadence (example_pass 2000) initial_globals
                   [example_pass 2100; example_pass 2300; pressed_pass 2499]
                   _ _)).
  - vm_compute. discriminate.
  - repeat (apply Forall_cons; [vm_compute; reflexivity|]). apply Forall_nil.
Defined.

(* ------------------------------------------------------------------ *)
(** ** More on the debouncer *)

(** While the stored level is HIGH, HIGH readings change nothing. *)
Lemma polls_held_high (envs : list PassInput) (g : Globals) :
  lastButtonState g = HIGH ->
  Forall (fun e => button_level e = HIGH) envs ->
  polls envs g = (g, 0%nat).
Proof.
  intros Hs Hall. apply polls_ignorable.
  eapply Forall_impl; [|exact Hall].
  intros e He. left. rewrite He, Hs. reflexivity.
Qed.

(** HIGH readings polled from a stored level other than HIGH: the first
    one that comes more than 200 ms after the stored time flips the
    mode, and nothing else does. *)
Lemma polls_press (envs : list PassInput) (g : Globals) :
  lastButtonState g <> HIGH ->
  Forall (fun e => button_level e = HIGH) envs ->
  (snd (polls envs g) = 1%nat
   /\ Exists (fun e => usub (millis_button e) (lastButtonChange g) > 200) envs
   /\ toggled g (fst (polls envs g)) = true
   /\ lastButtonState (fst (polls envs g)) = HIGH)
  \/ (polls envs g = (g, 0%nat)
      /\ ~ Exists (fun e => usub (millis_button e) (lastButtonChange g) > 200)
                  envs).
Proof.
  intros Hs Hall. induction Hall as [|env rest Hh Hrest IH].
  - right. split; [reflexivity|]. intros H. inversion H.
  - rewrite polls_cons. destruct (accepted env g) eqn:Ea.
    + left.
      destruct (accepted_fields env g Ea) as [Hs1 _]. rewrite Hh in Hs1.
      rewrite (polls_held_high rest _ Hs1 Hrest). cbn [fst snd].
      assert (Ht : toggled g (exec (handleButton env) g) = true).
      { rewrite toggled_handleButton, Ea, Hh. reflexivity. }
      rewrite Ht. apply accepted_true_iff in Ea.
      change BUTTON_DEBOUNCE_MS with 200 in Ea.
      split; [reflexivity|]. split; [apply Exists_cons_hd; tauto|].
      split; [reflexivity | exact Hs1].
    + assert (Hg : exec (handleButton env) g = g).
      { rewrite exec_handleButton, Ea. reflexivity. }
      assert (Hn : ~ usub (millis_button env) (lastButtonChange g) > 200).
      { intros Hgt.
        assert (Ht : accepted env g = true).
        { apply accepted_true_iff. change BUTTON_DEBOUNCE_MS with 200.
          split; [rewrite Hh; congruence | exact Hgt]. }
        rewrite Ht in Ea. discriminate Ea. }
      rewrite Hg, toggled_refl. cbn [fst snd Nat.add].
      destruct IH as [(I1 & I2 & I3 & I4) | (I1 & I2)].
      * left. repeat split; try assumption. apply Exists_cons_tl. exact I2.
      * right. rewrite I1. split; [reflexivity|].
        intros H. inversion H; subst; tauto.
Qed.

(** X6. A button that is read HIGH throughout, however long, toggles
    the mode at most once; starting from a stored LOW it toggles
    exactly once if one of the readings comes more than 200 ms after
    the stored time and not at all otherwise, and a toggle leaves the
    stored level HIGH. *)
Theorem held_button_toggles_once (envs : list PassInput) (g : Globals) :
  Forall (fun e => button_level e = HIGH) envs ->
  (snd (polls envs g) <= 1)%nat
  /\ (lastButtonState g = LOW ->
      (snd (polls envs g) = 1%nat <->
       Exists (fun e => usub (millis_button e) (lastButtonChange g) > 200)
              envs)
      /\ (snd (polls envs g) = 0%nat <-> fst (polls envs g) = g)
      /\ (snd (polls envs g) = 1%nat ->
          currentMode (fst (polls envs g)) <> currentMode g
          /\ lastButtonState (fst (polls envs g)) = HIGH)).
Proof.
  intros Hall.
  assert (Hle : (snd (polls envs g) <= 1)%nat).
  { destruct (Z.eq_dec (lastButtonState g) HIGH) as [Hs | Hs].
    - rewrite (polls_held_high envs g Hs Hall). cbn. lia.
    - destruct (polls_press envs g Hs Hall) as [(I1 & _) | (I1 & _)];
        rewrite I1; cbn; lia. }
  split; [exact Hle|].
  intros Hlow.
  assert (Hs : lastButtonState g <> HIGH) by (rewrite Hlow; discriminate).
  destruct (polls_press envs g Hs Hall) as [(I1 & I2 & I3 & I4) | (I1 & I2)].
  - rewrite I1. split; [tauto|]. split.
    + split; [discriminate|]. intros E. rewrite E, toggled_refl in I3.
      discriminate I3.
    + intros _. split; [apply toggled_true_iff; exact I3 | exact I4].
  - rewrite I1. cbn [fst snd]. split; [|split].
    + split; [discriminate | tauto].
    + tauto.
    + discriminate.
Qed.

Lemma held_button_toggles_once_witness :
  snd (polls [button_reading HIGH 100; button_reading HIGH 201;
              button_reading HIGH 5000] initial_globals) = 1%nat <->
  Exists (fun e => usub (millis_button e) (lastButtonChange initial_globals)
                   > 200)
         [button_reading HIGH 100; button_reading HIGH 201;
          button_reading HIGH 5000].
Proof.
  refine (proj1 (proj2 (held_button_toggles_once
                          [button_reading HIGH 100; button_reading HIGH 201;
                           button_reading HIGH 5000] initial_globals _) _)).
  - repeat (apply Forall_cons; [reflexivity|]). apply Forall_nil.
  - reflexivity.
Defined.




Lemma handleButton_button_state (env : PassInput) (g1 g2 : Globals) :
  button_state g1 = button_state g2 ->
  button_state (exec (handleButton env) g1)
  = button_state (exec (handleButton env) g2).
Proof.
  unfold button_state. intros H. injection H as Hm Hs Hc.
  rewrite !exec_handleButton. unfold accepted. rewrite Hs, Hc.
  destruct (negb (button_level env =? lastButtonState g2)
            && (usub (millis_button env) (lastButtonChange g2)
                >? BUTTON_DEBOUNCE_MS)).
  - destruct (button_level env =? HIGH); cbn; rewrite ?Hm; reflexivity.
  - rewrite Hm, Hs, Hc. reflexivity.
Qed.

Lemma run_button_state_from (envs : list PassInput) (g1 g2 : Globals) :
  button_state g1 = button_state g2 ->
  button_state (exec (run envs) g1) = button_state (fst (polls envs g2)).
Proof.
  revert g1 g2. induction envs as [|env rest IH]; intros g1 g2 H.
  - exact H.
  - rewrite exec_run_cons, polls_cons. cbn [fst]. apply IH.
    rewrite <- (handleButton_button_state env g1 g2 H).
    destruct (loop_button_fields env g1) as (Hm & Hs & Hc).
    unfold button_state. rewrite Hm, Hs, Hc. reflexivity.
Qed.

(** X8. Sampling and rendering never interfere with the button: after
    any run of passes the mode, the stored level and the stored time
    are those that polling the debouncer alone over the same button
    readings would leave, whatever the sensor answered and whatever
    the clock of [loop] read. *)
Theorem run_button_side_is_polls (envs : list PassInput) (g : Globals) :
  currentMode (exec (run envs) g) = currentMode (fst (polls envs g))
  /\ lastButtonState (exec (run envs) g) = lastButtonState (fst (polls envs g))
  /\ lastButtonChange (exec (run envs) g)
     = lastButtonChange (fst (polls envs g)).
Proof.
  pose proof (run_button_state_from envs g g eq_refl) as H.
  unfold button_state in H. injection H as Hm Hs Hc. repeat split; assumption.
Qed.

(* ------------------------------------------------------------------ *)
(** ** The sampling side does not see the button *)

Lemma filter_not_oled_map (cmds : list DrawCmd) :
  filter (fun o => negb (is_oled o)) (map oled cmds) = [].
Proof. induction cmds as [|c cmds IH]; [reflexivity | exact IH]. Qed.

Lemma filter_not_oled_loop (env : PassInput) (g : Globals) :
  filter (fun o => negb (is_oled o)) (calls (loop env) g)
  = if sample_due env g
    then sample_calls (EnvSensor_read env) (alarm_of (EnvSensor_read env))
    else [].
Proof.
  rewrite calls_loop, filter_app.
  assert (Hr : filter (fun o => negb (is_oled o))
                 (if render_due env g
                  then map oled (render (currentMode g)
                                        (latestData (after_sample env g))
                                        (alarmOn (after_sample env g)))
                  else []) = []).
  { destruct (render_due env g); [apply filter_not_oled_map | reflexivity]. }
  rewrite Hr, app_nil_r. destruct (sample_due env g); reflexivity.
Qed.

Lemma loop_sampling_state (e e' : PassInput) (g g' : Globals) :
  sampling_state g = sampling_state g' ->
  same_sampling_inputs e e' ->
  sampling_state (exec (loop e) g) = sampling_state (exec (loop e') g')
  /\ filter (fun o => negb (is_oled o)) (calls (loop e) g)
     = filter (fun o => negb (is_oled o)) (calls (loop e') g')
  /\ count is_commit (calls (loop e) g) = count is_commit (calls (loop e') g').
Proof.
  unfold sampling_state. intros H [Hn Hd]. injection H as Ha Hl Hr Hdm.
  assert (Hs : sample_due e g = sample_due e' g').
  { unfold sample_due. rewrite Hn, Hr. reflexivity. }
  assert (Hrd : render_due e g = render_due e' g').
  { unfold render_due. rewrite Hn, Hdm. reflexivity. }
  destruct (loop_fields e g) as (A1 & A2 & A3 & A4).
  destruct (loop_fields e' g') as (B1 & B2 & B3 & B4).
  destruct (count_loop e g) as (_ & _ & C1).
  destruct (count_loop e' g') as (_ & _ & C2).
  rewrite !filter_not_oled_loop, A1, A2, A3, A4, B1, B2, B3, B4, C1, C2.
  rewrite Hs, Hrd, Hd, Hn, Ha, Hl, Hr, Hdm. repeat split.
Qed.

(** X9. The button never interferes with sampling: two runs that start
    with the same alarm flag, stored reading and cadence timers, and
    whose passes read the same clock in [loop] and get the same sensor
    answers, end with the same alarm flag, stored reading and timers,
    make the same pin writes and serial prints in the same order, and
    draw the same number of frames, whatever the button did in either
    run. *)
Theorem sampling_ignores_button
        (envs envs' : list PassInput) (g g' : Globals) :
  sampling_state g = sampling_state g' ->
  Forall2 same_sampling_inputs envs envs' ->
  sampling_state (exec (run envs) g) = sampling_state (exec (run envs') g')
  /\ filter (fun o => negb (is_oled o)) (calls (run envs) g)
     = filter (fun o => negb (is_oled o)) (calls (run envs') g')
  /\ count is_commit (calls (run envs) g)
     = count is_commit (calls (run envs') g').
Proof.
  intros Hst Hall. revert g g' Hst.
  induction Hall as [|e e' rest rest' He _ IH]; intros g g' Hst.
  - split; [exact Hst | split; reflexivity].
  - destruct (loop_sampling_state e e' g g' Hst He) as (S1 & S2 & S3).
    destruct (IH _ _ S1) as (I1 & I2 & I3).
    rewrite !exec_run_cons, !calls_run_cons, !filter_app, !count_app.
    rewrite I1, I2, I3, S2, S3. repeat split.
Qed.

Lemma sampling_ignores_button_witness :
  sampling_state
    (exec (run [example_pass 2000; example_pass 2600]) initial_globals)
  = sampling_state
      (exec (run [pressed_pass 2000; pressed_pass 2600])
            (set_currentMode DETAIL initial_globals)).
Proof.
  refine (proj1 (sampling_ignores_button
                   [example_pass 2000; example_pass 2600]
                   [pressed_pass 2000; pressed_pass 2600]
                   initial_globals (set_currentMode DETAIL initial_globals)
                   _ _)).
  - reflexivity.
  - repeat (apply Forall2_cons; [split; reflexivity|]). apply Forall2_nil.
Defined.

(* ------------------------------------------------------------------ *)
(** ** Passes in which nothing is due *)

Lemma loop_nothing_due (env : PassInput) (g : Globals) :
  nothing_due g env -> loop env g = (tt, g, []).
Proof.
  intros (Hs & Hr & Hi). rewrite loop_eq.
  assert (Es : sample_due env g = false) by (apply not_due; exact Hs).
  assert (Er : render_due env g = false) by (apply not_due; exact Hr).
  unfold after_sample. rewrite Es. unfold after_render. rewrite Er.
  rewrite exec_handleButton, (ignorable_not_accepted g env Hi).
  reflexivity.
Qed.

(** X10. Passes in which nothing is due do nothing: when every pass
    reads the clock less than 2000 ms after the stored sampling time
    and less than 500 ms after the stored rendering time, and its
    button reading repeats the stored level or comes within 200 ms of
    the stored time, the run makes no hardware call and leaves every
    global as it was. In particular nothing happens in the first 200 ms
    after power-up, whatever the button does. *)
Theorem idle_passes_do_nothing (envs : list PassInput) (g : Globals) :
  Forall (nothing_due g) envs -> run envs g = (tt, g, []).
Proof.
  induction 1 as [|env rest He _ IH]; [reflexivity|].
  destruct (result_exec_calls _ _ _ _ _ (loop_nothing_due env g He))
    as [E1 C1].
  destruct (result_exec_calls _ _ _ _ _ IH) as [E2 C2].
  apply exec_calls_result.
  - rewrite exec_run_cons, E1. exact E2.
  - rewrite calls_run_cons, C1, E1, C2. reflexivity.
Qed.

Lemma idle_passes_do_nothing_witness :
  run [button_reading HIGH 20; button_reading LOW 120;
       button_reading HIGH 200]
      (exec (setup false) initial_globals)
  = (tt, exec (setup false) initial_globals, []).
Proof.
  apply idle_passes_do_nothing.
  repeat (apply Forall_cons;
          [split; [reflexivity | split; [reflexivity|]];
           right; vm_compute; discriminate|]).
  apply Forall_nil.
Defined.

(* ------------------------------------------------------------------ *)
(** ** Shape of the call log *)

Lemma count_clear_frame (mode : DisplayMode) (data : EnvData) (alarm : bool) :
  count is_clear (map oled (render mode data alarm)) = 1%nat.
Proof.
  destruct mode; cbn [render].
  - unfold showSummary.
    destruct (isnan (temperature data)), (isnan (humidity data)); reflexivity.
  - rewrite showDetail_eq. reflexivity.
Qed.

Lemma filter_oled_map (cmds : list DrawCmd) :
  filter is_oled (map oled cmds) = map oled cmds.
Proof.
  induction cmds as [|c cmds IH]; [reflexivity|].
  cbn [map filter is_oled]. rewrite IH. reflexivity.
Qed.

(** The display calls of a pass: one whole frame when rendering is due,
    none otherwise. *)
Lemma filter_oled_loop (env : PassInput) (g : Globals) :
  filter is_oled (calls (loop env) g)
  = if render_due env g
    then map oled (render (currentMode g)
                          (latestData (after_sample env g))
                          (alarmOn (after_sample env g)))
    else [].
Proof.
  rewrite calls_loop, filter_app.
  assert (Hs : filter is_oled
                 (if sample_due env g
                  then sample_calls (EnvSensor_read env)
                                    (alarm_of (EnvSensor_read env))
                  else []) = []).
  { destruct (sample_due env g); reflexivity. }
  rewrite Hs. destruct (render_due env g); [apply filter_oled_map | reflexivity].
Qed.

(** X11. The display only ever receives whole frames: in any run the
    calls on the display are, in order, complete Summary or Detail
    frames, one for each commit, so every frame that is cleared is
    also committed and no frame is left half drawn between passes. *)
Theorem display_receives_whole_frames (envs : list PassInput) (g : Globals) :
  let out := calls (run envs) g in
  (exists frames : list (DisplayMode * EnvData * bool),
      filter is_oled out
      = List.concat
          (map (fun f => map oled (render (fst (fst f)) (snd (fst f)) (snd f)))
               frames)
      /\ List.length frames = count is_commit out)
  /\ count is_clear out = count is_commit out.
Proof.
  revert g. induction envs as [|env rest IH]; intros g out.
  - split; [exists []; split; reflexivity | reflexivity].
  - destruct (IH (exec (loop env) g)) as [[frames [Hf Hn]] Hc].
    subst out. rewrite calls_run_cons, filter_app, !count_app.
    rewrite filter_oled_loop, Hf, Hc.
    destruct (count_loop env g) as (_ & _ & C3). rewrite C3.
    assert (Hclear : count is_clear (calls (loop env) g)
                     = (if render_due env g then 1 else 0)%nat).
    { unfold count. rewrite calls_loop, filter_app, length_app.
      pose proof (count_clear_frame (currentMode g)
                    (latestData (after_sample env g))
                    (alarmOn (after_sample env g))) as Hcf.
      unfold count in Hcf.
      destruct (sample_due env g), (render_due env g); rewrite ?Hcf;
        reflexivity. }
    rewrite Hclear. split; [|reflexivity].
    destruct (render_due env g).
    + exists ((currentMode g, latestData (after_sample env g),
               alarmOn (after_sample env g)) :: frames).
      split; [reflexivity | cbn [List.length]; rewrite Hn; reflexivity].
    + exists frames. split; [reflexivity | exact Hn].
Qed.

(** X12. A pass samples at most once and renders at most once, and each
    sampling cycle drives the buzzer once and logs one record: in any
    run the buzzer writes and the log records are equal in number, and
    neither they nor the frames outnumber the passes. *)
Theorem one_record_per_sample (envs : list PassInput) (g : Globals) :
  let out := calls (run envs) g in
  count is_evaluation out = count is_log_record out
  /\ (count is_log_record out <= List.length envs)%nat
  /\ (count is_commit out <= List.length envs)%nat.
Proof.
  revert g. induction envs as [|env rest IH]; intros g out.
  - repeat split; cbn; lia.
  - destruct (IH (exec (loop env) g)) as (I1 & I2 & I3).
    subst out. rewrite calls_run_cons, !count_app.
    destruct (count_loop env g) as (C1 & C2 & C3). rewrite C1, C2, C3, I1.
    cbn [List.length].
    destruct (sample_due env g), (render_due env g); repeat split; lia.
Qed.

(* ------------------------------------------------------------------ *)
(** ** Beyond one period of the clock *)

Lemma usub_wrap (a b : Z) : usub (wrap a) (wrap b) = (a - b) mod modulus.
Proof. unfold usub, wrap. rewrite <- Zminus_mod. reflexivity. Qed.

Lemma mod_of_periods (k d : Z) :
  0 <= d < modulus -> (k * modulus + d) mod modulus = d.
Proof.
  intros Hd. rewrite Z.add_comm, Z.mod_add by (unfold modulus, width; lia).
  apply Z.mod_small. exact Hd.
Qed.

(** X13. The three gates see the elapsed time only modulo 2^32. A pass
    samples exactly when the true elapsed time, reduced modulo 2^32, is
    at least 2000, renders exactly when it is at least 500, and accepts
    a differing button level exactly when it is more than 200. So a
    button reading that comes a whole number of clock periods plus at
    most 200 ms after the stored time is ignored, however long the true
    wait was. *)
Theorem gates_see_time_modulo_wrap
        (env : PassInput) (g : Globals)
        (t_read t_display t_change t_loop t_button : Z) :
  lastReadMillis g = wrap t_read ->
  lastDisplayMillis g = wrap t_display ->
  lastButtonChange g = wrap t_change ->
  millis_loop env = wrap t_loop ->
  millis_button env = wrap t_button ->
  (In (Serial_print "T=") (calls (loop env) g)
   <-> 2000 <= (t_loop - t_read) mod 2 ^ 32)
  /\ (In (oled display) (calls (loop env) g)
      <-> 500 <= (t_loop - t_display) mod 2 ^ 32)
  /\ (button_level env <> lastButtonState g ->
      (lastButtonState (exec (loop env) g) = button_level env
       <-> 200 < (t_button - t_change) mod 2 ^ 32))
  /\ (forall periods late : Z,
        0 <= late <= 200 ->
        t_button - t_change = periods * 2 ^ 32 + late ->
        exec (handleButton env) g = g
        /\ currentMode (exec (loop env) g) = currentMode g).
Proof.
  intros Hr Hd Hc Hl Hb. change (2 ^ 32) with modulus.
  assert (Er : usub (millis_loop env) (lastReadMillis g)
               = (t_loop - t_read) mod modulus)
    by (rewrite Hr, Hl; apply usub_wrap).
  assert (Ed : usub (millis_loop env) (lastDisplayMillis g)
               = (t_loop - t_display) mod modulus)
    by (rewrite Hd, Hl; apply usub_wrap).
  assert (Ec : usub (millis_button env) (lastButtonChange g)
               = (t_button - t_change) mod modulus)
    by (rewrite Hc, Hb; apply usub_wrap).
  assert (Hacc : accepted env g = true <->
                 button_level env <> lastButtonState g
                 /\ 200 < (t_button - t_change) mod modulus).
  { rewrite accepted_true_iff, Ec. change BUTTON_DEBOUNCE_MS with 200.
    intuition lia. }
  split.
  { rewrite sampled_iff_due. unfold sample_due. rewrite Er.
    change READ_INTERVAL_MS with 2000. rewrite Z.geb_le. reflexivity. }
  split.
  { rewrite rendered_iff_due. unfold render_due. rewrite Ed.
    change DISPLAY_INTERVAL_MS with 500. rewrite Z.geb_le. reflexivity. }
  split.
  { intros Hdiff.
    destruct (loop_button_fields env g) as (_ & Hs & _). rewrite Hs.
    destruct (accepted env g) eqn:Ea.
    - destruct (accepted_fields env g Ea) as [Hs' _].
      split; [intros _; apply Hacc; reflexivity | intros _; exact Hs'].
    - rewrite exec_handleButton, Ea. split.
      + intros E. elim Hdiff. symmetry. exact E.
      + intros Hgt. assert (Ht : false = true) by (apply Hacc; tauto).
        discriminate Ht. }
  intros periods late Hlate Heq.
  assert (Ea : accepted env g = false).
  { destruct (accepted env g); [|reflexivity].
    destruct (proj1 Hacc eq_refl) as [_ Hgt].
    rewrite Heq, mod_of_periods in Hgt by (unfold modulus, width; lia). lia. }
  assert (Hg : exec (handleButton env) g = g)
    by (rewrite exec_handleButton, Ea; reflexivity).
  split; [exact Hg|].
  destruct (loop_button_fields env g) as (Hm & _). rewrite Hm, Hg. reflexivity.
Qed.

Lemma gates_see_time_modulo_wrap_witness :
  exec (handleButton (pressed_pass 1100)) (globals_at 1000) = globals_at 1000
  /\ currentMode (exec (loop (pressed_pass 1100)) (globals_at 1000))
     = currentMode (globals_at 1000).
Proof.
  refine (proj2 (proj2 (proj2
            (gates_see_time_modulo_wrap
               (pressed_pass 1100) (globals_at 1000)
               1000 1000 1000 (2 ^ 32 + 1100) (2 ^ 32 + 1100)
               _ _ _ _ _))) 1 100 _ _);
    try reflexivity.
  lia.
Defined.

(* ------------------------------------------------------------------ *)
(** ** Monotonicity of the threshold evaluation *)

Lemma SFleb_trans (x y z : float) :
  valid x = true -> valid y = true -> valid z = true ->
  SFleb x y = true -> SFleb y z = true -> SFleb x z = true.
Proof.
  intros Vx Vy Vz Hxy Hyz.
  destruct (is_finite x && is_finite y && is_finite z) eqn:F.
  - apply andb_true_iff in F. destruct F as [F Fz].
    apply andb_true_iff in F. destruct F as [Fx Fy].
    rewrite SFleb_units in Hxy, Hyz |- * by assumption.
    apply Z.leb_le in Hxy, Hyz. apply Z.leb_le. lia.
  - destruct x as [[]|[]| |[] mx ex], y as [[]|[]| |[] my ey],
             z as [[]|[]| |[] mz ez];
      cbn in F; try discriminate F;
      cbn in Hxy, Hyz |- *;
      first [discriminate Hxy | discriminate Hyz | reflexivity].
Qed.

Lemma SFleb_present (x y : float) :
  SFleb x y = true -> isnan x = false /\ isnan y = false.
Proof.
  destruct x, y; cbn; intros H; try discriminate H; split; reflexivity.
Qed.

Lemma ge_threshold_mono (threshold x x' : float) :
  valid threshold = true -> valid x = true -> valid x' = true ->
  isnan x = true \/ ge x' x = true ->
  isnan x = false /\ ge x threshold = true ->
  isnan x' = false /\ ge x' threshold = true.
Proof.
  unfold ge. intros Vt Vx Vx' [Hn | Hle] [Hp Hge].
  - rewrite Hn in Hp. discriminate Hp.
  - split; [exact (proj2 (SFleb_present _ _ Hle))|].
    exact (SFleb_trans threshold x x' Vt Vx Vx' Hge Hle).
Qed.

(** X14. The threshold evaluation is monotone: if a reading raises the
    alarm, so does every reading that is no better, that is, whose
    temperature and humidity are not lower (or replace an absent value)
    and whose light is not higher. Only a value going absent, or an
    improvement, can clear the alarm. *)
Theorem alarm_is_monotone (d d' : EnvData) (g g' : Globals) :
  valid (temperature d) = true -> valid (temperature d') = true ->
  valid (humidity d) = true -> valid (humidity d') = true ->
  (isnan (temperature d) = true
   \/ ge (temperature d') (temperature d) = true) ->
  (isnan (humidity d) = true \/ ge (humidity d') (humidity d) = true) ->
  lightRaw d' <= lightRaw d ->
  alarmOn (exec (updateAlarm d) g) = true ->
  alarmOn (exec (updateAlarm d') g') = true.
Proof.
  intros Vt Vt' Vh Vh' Ht Hh Hl.
  unfold exec. rewrite !updateAlarm_eq. cbn [fst snd alarmOn set_alarmOn].
  rewrite !alarm_of_true_iff. change LIGHT_LOW_THRESHOLD with 1000.
  intros [Hth | [Hhh | Hll]].
  - left. apply (ge_threshold_mono TEMP_HIGH_THRESHOLD (temperature d));
      (reflexivity || assumption).
  - right. left.
    apply (ge_threshold_mono HUMID_HIGH_THRESHOLD (humidity d));
      (reflexivity || assumption).
  - right. right. lia.
Qed.

Lemma alarm_is_monotone_witness :
  alarmOn (exec (updateAlarm (mkEnvData (of_Z 31) float_22_5 900))
                initial_globals) = true.
Proof.
  refine (alarm_is_monotone
            (mkEnvData (of_Z 30) NAN 4000)
            (mkEnvData (of_Z 31) float_22_5 900)
            initial_globals initial_globals _ _ _ _ _ _ _ _);
    try reflexivity.
  - right. reflexivity.
  - left. reflexivity.
  - cbn. lia.
Defined.

(* ------------------------------------------------------------------ *)
(** ** A pass every millisecond *)

Lemma every_ms_succ (n : nat) :
  every_ms (S n) = every_ms n ++ [Z.of_nat (S n)].
Proof.
  unfold every_ms. rewrite (seq_S (S n) 0), map_app. reflexivity.
Qed.

(** One more millisecond against a timer that holds the last multiple of
    the period [p]: the gate opens exactly when the new time is the next
    multiple. *)
Lemma cadence_step (p n : Z) :
  0 < p -> 0 <= n ->
  (if n + 1 - p * (n / p) >=? p then n + 1 else p * (n / p))
  = p * ((n + 1) / p)
  /\ (if n + 1 - p * (n / p) >=? p then 1 else 0) + n / p = (n + 1) / p.
Proof.
  intros Hp Hn.
  pose proof (Z.div_mod n p ltac:(lia)) as Hdm.
  pose proof (Z.mod_pos_bound n p Hp) as Hr.
  set (q := n / p) in *. set (r := n mod p) in *.
  destruct (n + 1 - p * q >=? p) eqn:E.
  - apply Z.geb_le in E.
    assert (Hq : (n + 1) / p = q + 1).
    { symmetry. apply (Z.div_unique (n + 1) p (q + 1) 0); lia. }
    rewrite Hq. split; lia.
  - assert (Hlt : n + 1 - p * q < p).
    { destruct (Z.lt_ge_cases (n + 1 - p * q) p) as [H | H]; [exact H|].
      apply Z.geb_le in H. rewrite H in E. discriminate E. }
    assert (Hq : (n + 1) / p = q).
    { symmetry. apply (Z.div_unique (n + 1) p q (r + 1)); lia. }
    rewrite Hq. split; lia.
Qed.

Section EveryMillisecond.

Variables (temp hum : Z -> float) (light : Z -> Z).

(** After the passes at 0, 1, ..., [n]: both timers hold the last
    multiple of their period, the debouncer is untouched, and the
    samples and frames so far number [n / 2000] and [n / 500]. *)
Lemma every_ms_invariant (n : nat) :
  Z.of_nat n < modulus ->
  lastReadMillis
    (exec (run (map (idle_pass temp hum light) (every_ms n))) initial_globals)
  = 2000 * (Z.of_nat n / 2000)
  /\ lastDisplayMillis
       (exec (run (map (idle_pass temp hum light) (every_ms n)))
             initial_globals)
     = 500 * (Z.of_nat n / 500)
  /\ Z.of_nat
       (count is_log_record
          (calls (run (map (idle_pass temp hum light) (every_ms n)))
                 initial_globals))
     = Z.of_nat n / 2000
  /\ Z.of_nat
       (count is_commit
          (calls (run (map (idle_pass temp hum light) (every_ms n)))
                 initial_globals))
     = Z.of_nat n / 500.
Proof.
  induction n as [|n IH]; intros Hn.
  - repeat split.
  - destruct IH as (Hr & Hd & Hs & Hf); [lia|].
    rewrite every_ms_succ, map_app. cbn [map].
    rewrite exec_run_app, calls_run_app, exec_run_one, calls_run_one.
    set (g := exec (run (map (idle_pass temp hum light) (every_ms n)))
                   initial_globals) in *.
    set (env := idle_pass temp hum light (Z.of_nat (S n))).
    destruct (loop_fields env g) as (_ & _ & Lr & Ld).
    destruct (count_loop env g) as (Cs & _ & Cf).
    rewrite !count_app, Lr, Ld, Cs, Cf, !Nat2Z.inj_add.
    pose proof (Z.div_pos (Z.of_nat n) 2000 ltac:(lia) ltac:(lia)) as Q1.
    pose proof (Z.div_pos (Z.of_nat n) 500 ltac:(lia) ltac:(lia)) as Q2.
    pose proof (Z.mul_div_le (Z.of_nat n) 2000 ltac:(lia)) as M1.
    pose proof (Z.mul_div_le (Z.of_nat n) 500 ltac:(lia)) as M2.
    assert (Es : sample_due env g
                 = (Z.of_nat n + 1 - 2000 * (Z.of_nat n / 2000) >=? 2000)).
    { unfold sample_due. rewrite Hr. unfold env. cbn [idle_pass millis_loop].
      rewrite usub_in_range by (unfold in_range; lia).
      rewrite Nat2Z.inj_succ. reflexivity. }
    assert (Er : render_due env g
                 = (Z.of_nat n + 1 - 500 * (Z.of_nat n / 500) >=? 500)).
    { unfold render_due. rewrite Hd. unfold env. cbn [idle_pass millis_loop].
      rewrite usub_in_range by (unfold in_range; lia).
      rewrite Nat2Z.inj_succ. reflexivity. }
    rewrite Es, Er, Hr, Hd, Hs, Hf.
    unfold env. cbn [idle_pass millis_loop].
    rewrite Nat2Z.inj_succ. unfold Z.succ.
    destruct (cadence_step 2000 (Z.of_nat n) ltac:(lia) ltac:(lia)) as [A1 A2].
    destruct (cadence_step 500 (Z.of_nat n) ltac:(lia) ltac:(lia)) as [B1 B2].
    split; [exact A1|]. split; [exact B1|].
    split.
    + rewrite <- A2.
      destruct (Z.of_nat n + 1 - 2000 * (Z.of_nat n / 2000) >=? 2000); lia.
    + rewrite <- B2.
      destruct (Z.of_nat n + 1 - 500 * (Z.of_nat n / 500) >=? 500); lia.
Qed.

End EveryMillisecond.

(** X15. With a pass at every millisecond from power-up, up to time [n]
    (below 2^32), exactly [n / 2000] samples are taken and [n / 500]
    frames drawn, whatever the sensor answers; the stored sampling and
    rendering times are the last multiples of 2000 and of 500, so the
    cadence does not drift. *)
Theorem exact_cadence_every_ms
        (temp hum : Z -> float) (light : Z -> Z) (n : nat) :
  Z.of_nat n < 2 ^ 32 ->
  let passes := map (idle_pass temp hum light) (every_ms n) in
  let out := calls (run passes) initial_globals in
  Z.of_nat (count is_log_record out) = Z.of_nat n / 2000
  /\ Z.of_nat (count is_commit out) = Z.of_nat n / 500
  /\ lastReadMillis (exec (run passes) initial_globals)
     = 2000 * (Z.of_nat n / 2000)
  /\ lastDisplayMillis (exec (run passes) initial_globals)
     = 500 * (Z.of_nat n / 500).
Proof.
  intros Hn passes out.
  destruct (every_ms_invariant temp hum light n Hn) as (Hr & Hd & Hs & Hf).
  repeat split; assumption.
Qed.

Lemma exact_cadence_every_ms_witness :
  Z.of_nat
    (count is_commit
       (calls (run (map (idle_pass (fun _ => NAN) (fun _ => float_22_5)
                                   (fun _ => 1500))
                        (every_ms 1200)))
              initial_globals))
  = 2.
Proof.
  refine (proj1 (proj2 (exact_cadence_every_ms
                          (fun _ => NAN) (fun _ => float_22_5)
                          (fun _ => 1500) 1200 _))).
  reflexivity.
Defined.
